(** * pressurelid: pattern-safety analysis and the SafeRegex facade

    A shallow embedding of [src/analyze.ts], [src/types.ts] and
    [src/safe-regex.ts].

    Modelling conventions.
    - A JavaScript string is the sequence of its code units; code units are
      restricted to the 8-bit range and written as [ascii], so a string is a
      [list ascii] and [pattern.length] is [length].
    - [RegExp.prototype.test] on a regular expression literal without flags
      is a search for a substring in the language of the expression; the
      expressions of the source use only classes, concatenation, [*], [+],
      [?] and the two anchors, for which this is exact.
    - Caller callbacks ([onBlock], [onWarning]) are state transformers on a
      caller-owned world [W]; a method that may call them takes the world
      and returns the new one. In [create] the instance is outside that
      world; [OnInstance.create] puts it inside, for a callback that
      reconfigures the instance it is called from.
    - The host's [new RegExp] and timers are external collaborators and are
      taken as parameters. *)

From Stdlib Require Import List Ascii String Bool Arith ZArith Lia.
From Stdlib Require Import DecimalString.
Import ListNotations.

Set Implicit Arguments.

Definition str := list ascii.

(** A string literal of the source, as a sequence of code units. *)
Definition lit (s : string) : str := list_ascii_of_string s.

Definition chr_in (set : string) (c : ascii) : bool :=
  existsb (Ascii.eqb c) (lit set).

Definition chr_not_in (set : string) (c : ascii) : bool :=
  negb (chr_in set c).

Definition chr_is (d c : ascii) : bool := Ascii.eqb c d.

(** ** Regular expressions *)

Module Re.

Inductive regex : Type :=
| Never
| Empty
| Class (p : ascii -> bool)
| Cat (a b : regex)
| Or (a b : regex)
| Many (a : regex).

(** [a+] and [a?] *)
Definition Some1 (a : regex) : regex := Cat a (Many a).
Definition Maybe (a : regex) : regex := Or a Empty.

Fixpoint cat_all (rs : list regex) : regex :=
  match rs with
  | [] => Empty
  | r :: rs' => Cat r (cat_all rs')
  end.

Inductive lang : regex -> str -> Prop :=
| L_empty : lang Empty []
| L_class : forall p c, p c = true -> lang (Class p) [c]
| L_cat : forall a b s t, lang a s -> lang b t -> lang (Cat a b) (s ++ t)
| L_or_l : forall a b s, lang a s -> lang (Or a b) s
| L_or_r : forall a b s, lang b s -> lang (Or a b) s
| L_many_nil : forall a, lang (Many a) []
| L_many_app : forall a s t, lang a s -> lang (Many a) t -> lang (Many a) (s ++ t).

Fixpoint nullable (r : regex) : bool :=
  match r with
  | Never => false
  | Empty => true
  | Class _ => false
  | Cat a b => nullable a && nullable b
  | Or a b => nullable a || nullable b
  | Many _ => true
  end.

Fixpoint deriv (c : ascii) (r : regex) : regex :=
  match r with
  | Never => Never
  | Empty => Never
  | Class p => if p c then Empty else Never
  | Cat a b =>
      if nullable a then Or (Cat (deriv c a) b) (deriv c b)
      else Cat (deriv c a) b
  | Or a b => Or (deriv c a) (deriv c b)
  | Many a => Cat (deriv c a) (Many a)
  end.

(** The whole of [s] is in the language of [r]. *)
Fixpoint whole (r : regex) (s : str) : bool :=
  match s with
  | [] => nullable r
  | c :: s' => whole (deriv c r) s'
  end.

(** Some prefix of [s] is in the language of [r]. *)
Fixpoint prefix (r : regex) (s : str) : bool :=
  nullable r ||
  match s with
  | [] => false
  | c :: s' => prefix (deriv c r) s'
  end.

(** A regular expression literal: a body, and whether it opens with [^]
    and closes with [$] (no [m] flag: start and end of the input). *)
Record literal : Type := Literal {
  from_start : bool;
  body : regex;
  to_end : bool
}.

Definition exec_at (re : literal) (s : str) : bool :=
  if to_end re then whole (body re) s else prefix (body re) s.

Fixpoint scan (re : literal) (s : str) : bool :=
  exec_at re s ||
  match s with
  | [] => false
  | _ :: s' => scan re s'
  end.

(** [re.test(s)] for a literal without the [g] or [y] flag. *)
Definition test (re : literal) (s : str) : bool :=
  if from_start re then exec_at re s else scan re s.

Definition unanchored (r : regex) : literal := Literal false r false.
Definition anchored (r : regex) : literal := Literal true r true.

End Re.

(** ** src/types.ts *)

Inductive SafeRegexReason : Type :=
| ok
| pattern_too_long
| nested_quantifiers
| overlapping_alternation
| catastrophic_backtracking
| invalid_syntax
| execution_timeout.

(** [PatternAnalysis]; the optional fields are [option]s. *)
Record PatternAnalysis : Type := {
  a_safe : bool;
  a_reason : option SafeRegexReason;
  a_message : option str
}.

(** [SafeRegexResult], over the host's type of compiled expressions. *)
Record SafeRegexResult (R : Type) : Type := {
  safe : bool;
  regex : option R;
  error : option str;
  reason : option SafeRegexReason
}.

(** [SafeRegexConfig], over the world [W] the callbacks act on. *)
Record SafeRegexConfig (W : Type) : Type := {
  maxLength : Z;
  timeoutMs : Z;
  maxBacktrackDepth : Z;
  onBlock : option (str -> str -> W -> W);
  onWarning : option (str -> str -> W -> W)
}.

Definition DEFAULT_CONFIG (W : Type) : SafeRegexConfig W := {|
  maxLength := 500;
  timeoutMs := 1000;
  maxBacktrackDepth := 100000;
  onBlock := None;
  onWarning := None
|}.

(** A number inside a template literal (integers below 10^21 in size print
    in plain decimal). *)
Definition show_number (n : Z) : str :=
  lit (NilZero.string_of_int (Z.to_int n)).

(** ** src/analyze.ts *)

Record dangerous : Type := {
  d_regex : Re.literal;
  d_reason : SafeRegexReason;
  d_message : str
}.

Definition not_close : Re.regex := Re.Class (chr_not_in ")").
Definition plus_or_star : Re.regex := Re.Class (chr_in "+*").
Definition not_close_bracket : Re.regex := Re.Class (chr_not_in "]").

(** the class [[0-9,]] *)
Definition digit_or_comma (c : ascii) : bool :=
  ((nat_of_ascii "0" <=? nat_of_ascii c) && (nat_of_ascii c <=? nat_of_ascii "9"))
  || chr_is "," c.

(** [/\([^)]*[+*][^)]*\)[+*]/] *)
Definition nested_quantifier_re : Re.regex :=
  Re.cat_all [Re.Class (chr_is "("); Re.Many not_close; plus_or_star;
              Re.Many not_close; Re.Class (chr_is ")"); plus_or_star].

(** [/\([^)]*\|[^)]*\)[+*]/] *)
Definition alternation_re : Re.regex :=
  Re.cat_all [Re.Class (chr_is "("); Re.Many not_close; Re.Class (chr_is "|");
              Re.Many not_close; Re.Class (chr_is ")"); plus_or_star].

(** [/\([^)]+\)\{[0-9,]+\}[+*]?/] *)
Definition repeated_group_re : Re.regex :=
  Re.cat_all [Re.Class (chr_is "("); Re.Some1 not_close; Re.Class (chr_is ")");
              Re.Class (chr_is "{"); Re.Some1 (Re.Class digit_or_comma);
              Re.Class (chr_is "}"); Re.Maybe plus_or_star].

(** [/\([^)]*\([^)]*[+*]\)[^)]*[+*]\)/] *)
Definition deep_nesting_re : Re.regex :=
  Re.cat_all [Re.Class (chr_is "("); Re.Many not_close; Re.Class (chr_is "(");
              Re.Many not_close; plus_or_star; Re.Class (chr_is ")");
              Re.Many not_close; plus_or_star; Re.Class (chr_is ")")].

(** [/\[[^\]]+\][+*]\[[^\]]+\][+*]/] *)
Definition adjacent_classes_re : Re.regex :=
  Re.cat_all [Re.Class (chr_is "["); Re.Some1 not_close_bracket;
              Re.Class (chr_is "]"); plus_or_star;
              Re.Class (chr_is "["); Re.Some1 not_close_bracket;
              Re.Class (chr_is "]"); plus_or_star].

Definition DANGEROUS_PATTERNS : list dangerous := [
  {| d_regex := Re.unanchored nested_quantifier_re;
     d_reason := nested_quantifiers;
     d_message := lit "Pattern contains nested quantifiers which can cause exponential backtracking" |};
  {| d_regex := Re.unanchored alternation_re;
     d_reason := overlapping_alternation;
     d_message := lit "Pattern contains alternation with quantifier which may cause backtracking" |};
  {| d_regex := Re.unanchored repeated_group_re;
     d_reason := catastrophic_backtracking;
     d_message := lit "Pattern contains repeated group which may cause backtracking" |};
  {| d_regex := Re.unanchored deep_nesting_re;
     d_reason := nested_quantifiers;
     d_message := lit "Pattern contains deeply nested quantifiers" |};
  {| d_regex := Re.unanchored adjacent_classes_re;
     d_reason := catastrophic_backtracking;
     d_message := lit "Pattern contains overlapping character classes with quantifiers" |}
].

(** The loop variables of [countQuantifierNesting]. *)
Record nesting : Type := {
  maxDepth : Z;
  currentDepth : Z;
  inGroup : Z
}.

(** [prev !== '\\'], where [prev] is [pattern[i - 1]] ([undefined] at
    [i = 0]). *)
Definition not_backslash (prev : option ascii) : bool :=
  match prev with
  | Some p => negb (Ascii.eqb p "\")
  | None => true
  end.

(** One iteration of the loop body. *)
Definition nesting_step (prev : option ascii) (char : ascii) (st : nesting) : nesting :=
  let inGroup1 :=
    if Ascii.eqb char "(" && not_backslash prev then (inGroup st + 1)%Z
    else if Ascii.eqb char ")" && not_backslash prev
         then Z.max 0 (inGroup st - 1)
         else inGroup st in
  if (Ascii.eqb char "+" || Ascii.eqb char "*" || Ascii.eqb char "?")
     && not_backslash prev
  then
    if (inGroup1 >? 0)%Z
    then {| maxDepth := Z.max (maxDepth st) inGroup1;
            currentDepth := inGroup1;
            inGroup := inGroup1 |}
    else {| maxDepth := maxDepth st;
            currentDepth := currentDepth st;
            inGroup := inGroup1 |}
  else {| maxDepth := maxDepth st;
          currentDepth := currentDepth st;
          inGroup := inGroup1 |}.

(** The loop from index [i] on: [rest] is [pattern.slice(i)]. *)
Fixpoint nesting_loop (prev : option ascii) (rest : str) (st : nesting) : nesting :=
  match rest with
  | [] => st
  | char :: rest' => nesting_loop (Some char) rest' (nesting_step prev char st)
  end.

Definition countQuantifierNesting (pattern : str) : Z :=
  maxDepth (nesting_loop None pattern
              {| maxDepth := 0; currentDepth := 0; inGroup := 0 |}).

Definition analyzePattern (pattern : str) : PatternAnalysis :=
  match find (fun d => Re.test (d_regex d) pattern) DANGEROUS_PATTERNS with
  | Some d =>
      {| a_safe := false;
         a_reason := Some (d_reason d);
         a_message := Some (d_message d) |}
  | None =>
      let nestingDepth := countQuantifierNesting pattern in
      if (nestingDepth >? 2)%Z then
        {| a_safe := false;
           a_reason := Some nested_quantifiers;
           a_message :=
             Some (lit "Pattern has excessive quantifier nesting depth ("
                   ++ show_number nestingDepth ++ lit ")") |}
      else {| a_safe := true; a_reason := Some ok; a_message := None |}
  end.

(** [/[+*?]/], [/[()]/] and [/^\^[^+*?()]+\$$/] *)
Definition any_quantifier_re : Re.literal :=
  Re.unanchored (Re.Class (chr_in "+*?")).

Definition any_group_re : Re.literal :=
  Re.unanchored (Re.Class (chr_in "()")).

Definition simple_anchored_re : Re.literal :=
  Re.anchored (Re.cat_all [Re.Class (chr_is "^");
                           Re.Some1 (Re.Class (chr_not_in "+*?()"));
                           Re.Class (chr_is "$")]).

Definition quickSafetyCheck (pattern : str) : bool :=
  if negb (Re.test any_quantifier_re pattern) then true
  else if negb (Re.test any_group_re pattern) then true
  else if Re.test simple_anchored_re pattern then true
  else false.

(** ** The host's regular-expression engine and timers *)

(** What a [catch] clause receives: an [Error] object with its message, or
    some other value. *)
Inductive thrown : Type :=
| ErrorObject (message : str)
| OtherValue.

Inductive outcome (A : Type) : Type :=
| Returns (a : A)
| Throws (e : thrown).

Arguments Returns {A} a.
Arguments Throws {A} e.

(** [new RegExp(pattern, flags)], [regex.test(input)] and [regex.source]. *)
Record Engine : Type := {
  RegExp : Type;
  compile : str -> option str -> outcome RegExp;
  exec_test : RegExp -> str -> outcome bool;
  source : RegExp -> str
}.

(** ** src/safe-regex.ts *)

Inductive notice : Type := block | warning.

(** [s.replace(/[set]/g, '\$&')]: every code unit of the class is
    replaced by a backslash followed by itself. *)
Definition escape_class (set : string) (s : str) : str :=
  flat_map (fun c => if chr_in set c then ["\"%char; c] else [c]) s.

Fixpoint starts_with (needle s : str) : bool :=
  match needle, s with
  | [], _ => true
  | _ :: _, [] => false
  | n :: needle', c :: s' => Ascii.eqb n c && starts_with needle' s'
  end.

(** [s.replace(/needle/g, repl)] for an expression that matches the fixed
    non-empty string [needle] and a replacement without [$]: matches are
    taken left to right and do not overlap. [skip] counts the code units
    of the current match still to be dropped. *)
Fixpoint replace_from (needle repl : str) (skip : nat) (s : str) : str :=
  match s with
  | [] => []
  | c :: s' =>
      match skip with
      | S k => replace_from needle repl k s'
      | O =>
          if starts_with needle s
          then repl ++ replace_from needle repl (List.length needle - 1) s'
          else c :: replace_from needle repl 0 s'
      end
  end.

Definition replace_all (needle repl : string) (s : str) : str :=
  replace_from (lit needle) (lit repl) 0 s.

Definition escapeForRegex (input : str) : str :=
  escape_class ".*+?^${}()|[]\" input.

(** The [pattern] that [globToRegex] hands to [create]. *)
Definition glob_pattern (glob : str) : str :=
  let pattern :=
    replace_all "{{GLOBSTAR}}" ".*"
      (replace_all "?" "[^/]"
         (replace_all "*" "[^/]*"
            (replace_all "**" "{{GLOBSTAR}}"
               (escape_class ".+^${}()|[]\" glob)))) in
  lit "^" ++ pattern ++ lit "$".

(** [a || b] on an optional string: [undefined] and the empty string are
    falsy. *)
Definition or_else (a : option str) (b : str) : str :=
  match a with
  | Some (c :: m) => c :: m
  | _ => b
  end.

Section SafeRegex.

Variable W : Type.
Variable E : Engine.

Definition notify (config : SafeRegexConfig W) (type : notice)
    (message pattern : str) (w : W) : W :=
  let w1 :=
    match type, onBlock config with
    | block, Some f => f message pattern w
    | _, _ => w
    end in
  match type, onWarning config with
  | warning, Some f => f message pattern w1
  | _, _ => w1
  end.

Definition create (config : SafeRegexConfig W) (pattern : str)
    (flags : option str) (w : W) : SafeRegexResult (RegExp E) * W :=
  if (Z.of_nat (List.length pattern) >? maxLength config)%Z then
    let w1 :=
      notify config block
        (lit "Pattern exceeds maximum length of " ++ show_number (maxLength config))
        pattern w in
    ({| safe := false;
        regex := None;
        error := Some (lit "Pattern exceeds maximum length of "
                       ++ show_number (maxLength config));
        reason := Some pattern_too_long |}, w1)
  else
    let compiled :=
      match compile E pattern flags with
      | Returns regex =>
          ({| safe := true; regex := Some regex; error := None;
              reason := Some ok |}, w)
      | Throws error =>
          ({| safe := false;
              regex := None;
              error := Some (lit "Invalid regex syntax: " ++
                             match error with
                             | ErrorObject message => message
                             | OtherValue => lit "Unknown error"
                             end);
              reason := Some invalid_syntax |}, w)
      end in
    if negb (quickSafetyCheck pattern) then
      let analysis := analyzePattern pattern in
      if negb (a_safe analysis) then
        let w1 :=
          notify config block
            (or_else (a_message analysis) (lit "Pattern blocked")) pattern w in
        ({| safe := false;
            regex := None;
            error := a_message analysis;
            reason := a_reason analysis |}, w1)
      else compiled
    else compiled.

Definition globToRegex (config : SafeRegexConfig W) (glob : str) (w : W)
    : SafeRegexResult (RegExp E) * W :=
  create config (glob_pattern glob) (Some (lit "i")) w.

Definition fromUserInput (config : SafeRegexConfig W) (input : str) (w : W)
    : SafeRegexResult (RegExp E) * W :=
  let escaped := escape_class ".*+?^${}()|[]\" input in
  create config escaped (Some (lit "i")) w.

(** *** testWithTimeout

    The promise of one call, its timer and the caller's world. [resolve]
    and [reject] settle a pending promise and do nothing to a settled
    one; the host runs the callback of a timer only while it is armed. *)
Inductive settlement : Type :=
| Pending
| Fulfilled (value : bool)
| Rejected (e : thrown).

Record call : Type := {
  armed : option Z;
  promise : settlement;
  world : W
}.

Definition setTimeout (delay : Z) (st : call) : call :=
  {| armed := Some delay; promise := promise st; world := world st |}.

Definition clearTimeout (st : call) : call :=
  {| armed := None; promise := promise st; world := world st |}.

Definition resolve (value : bool) (st : call) : call :=
  match promise st with
  | Pending =>
      {| armed := armed st; promise := Fulfilled value; world := world st |}
  | _ => st
  end.

Definition reject (e : thrown) (st : call) : call :=
  match promise st with
  | Pending =>
      {| armed := armed st; promise := Rejected e; world := world st |}
  | _ => st
  end.

(** The arrow function handed to [setTimeout]. *)
Definition on_timeout (config : SafeRegexConfig W) (regex : RegExp E)
    (st : call) : call :=
  let st1 :=
    {| armed := armed st;
       promise := promise st;
       world :=
         notify config warning
           (lit "Regex execution exceeded " ++ show_number (timeoutMs config)
            ++ lit "ms timeout")
           (source E regex) (world st) |} in
  reject (ErrorObject (lit "Regex execution timed out after "
                       ++ show_number (timeoutMs config) ++ lit "ms")) st1.

(** The [try]/[catch] of the executor, once [regex.test(input)] is over. *)
Definition after_test (result : outcome bool) (st : call) : call :=
  match result with
  | Returns value => resolve value (clearTimeout st)
  | Throws error => reject error (clearTimeout st)
  end.

(** The executor handed to [new Promise]. *)
Definition executor (config : SafeRegexConfig W) (regex : RegExp E)
    (input : str) (st : call) : call :=
  let st1 := setTimeout (timeoutMs config) st in
  after_test (exec_test E regex input) st1.

Definition testWithTimeout (config : SafeRegexConfig W) (regex : RegExp E)
    (input : str) (w : W) : call :=
  executor config regex input {| armed := None; promise := Pending; world := w |}.

(** The host's timer elapses: the callback runs if the timer is still
    armed. *)
Definition timer_fires (config : SafeRegexConfig W) (regex : RegExp E)
    (st : call) : call :=
  match armed st with
  | Some _ => on_timeout config regex (clearTimeout st)
  | None => st
  end.

(** *** The call on the host's clock

    Times are in milliseconds, counted from the moment of the call. The
    host has one thread: [regex.test] holds it for the [elapsed]
    milliseconds that the match takes, the executor around it runs to its
    end, and only when no code is running does the host run the callback
    of a timer that is still armed, as soon as its delay is over and not
    before. A pair is the time now and the state of the call. *)
Definition clocked : Type := (Z * call)%type.

Definition executor_on_clock (config : SafeRegexConfig W) (regex : RegExp E)
    (input : str) (elapsed : Z) (t : clocked) : clocked :=
  ((fst t + elapsed)%Z, executor config regex input (snd t)).

(** The timer of a call made at time 0 is due at its delay. *)
Definition host_idle (config : SafeRegexConfig W) (regex : RegExp E)
    (t : clocked) : clocked :=
  match armed (snd t) with
  | Some delay => (Z.max (fst t) delay, timer_fires config regex (snd t))
  | None => t
  end.

Definition testWithTimeout_on_clock (config : SafeRegexConfig W)
    (regex : RegExp E) (input : str) (elapsed : Z) (w : W) : clocked :=
  host_idle config regex
    (executor_on_clock config regex input elapsed
       (0%Z, {| armed := None; promise := Pending; world := w |})).

End SafeRegex.

(** [createSafeRegex] and [globToSafeRegex]: a default-configured instance
    per call. *)
Definition createSafeRegex (W : Type) (E : Engine) (pattern : str)
    (flags : option str) (w : W) : SafeRegexResult (RegExp E) * W :=
  create E (DEFAULT_CONFIG W) pattern flags w.

Definition globToSafeRegex (W : Type) (E : Engine) (glob : str) (w : W)
    : SafeRegexResult (RegExp E) * W :=
  globToRegex E (DEFAULT_CONFIG W) glob w.

(** ** A fragment of the host's pattern language

    The patterns that [globToRegex] and [fromUserInput] produce use only:
    pattern characters, a backslash before a syntax character, [.],
    bracket classes of plain members, [*] after one of these, a leading
    [^] and a trailing [$]. [parse] recognises exactly this fragment (and
    answers [None] outside it) and [matches] gives its meaning under
    ECMAScript, with or without the [i] flag. A host is assumed to agree
    with it on the fragment ([conforms]); nothing is assumed outside. *)

Module Fragment.

Definition syntax_char (c : ascii) : bool := chr_in "^$\.*+?()[]{}|" c.

Inductive atom : Type :=
| A_char (c : ascii)
| A_dot
| A_class (negated : bool) (members : list ascii).

Record piece : Type := {
  p_atom : atom;
  p_star : bool
}.

Record pattern : Type := {
  p_from_start : bool;
  p_pieces : list piece;
  p_to_end : bool
}.

(** The members of a bracket class, up to the closing bracket. *)
Fixpoint class_body (s : str) : option (list ascii * str) :=
  match s with
  | [] => None
  | c :: s' =>
      if Ascii.eqb c "]" then Some ([], s')
      else if chr_in "\-[" c then None
      else match class_body s' with
           | Some (members, rest) => Some (c :: members, rest)
           | None => None
           end
  end.

Definition parse_atom (c : ascii) (s : str) : option (atom * str) :=
  if Ascii.eqb c "." then Some (A_dot, s)
  else if Ascii.eqb c "\" then
    match s with
    | d :: s' => if syntax_char d then Some (A_char d, s') else None
    | [] => None
    end
  else if Ascii.eqb c "[" then
    let (negated, body) :=
      match s with
      | d :: s' => if Ascii.eqb d "^" then (true, s') else (false, s)
      | [] => (false, s)
      end in
    match class_body body with
    | Some (members, rest) => Some (A_class negated members, rest)
    | None => None
    end
  else if syntax_char c then None
  else Some (A_char c, s).

(** The pieces of a pattern and whether it closes with [$]. *)
Fixpoint parse_pieces (fuel : nat) (s : str) : option (list piece * bool) :=
  match fuel with
  | O => None
  | S fuel' =>
      match s with
      | [] => Some ([], false)
      | c :: s1 =>
          if Ascii.eqb c "$" then
            match s1 with
            | [] => Some ([], true)
            | _ :: _ => None
            end
          else
            match parse_atom c s1 with
            | None => None
            | Some (a, s2) =>
                let (star, s3) :=
                  match s2 with
                  | d :: s3 => if Ascii.eqb d "*" then (true, s3) else (false, s2)
                  | [] => (false, s2)
                  end in
                match parse_pieces fuel' s3 with
                | Some (ps, eol) =>
                    Some ({| p_atom := a; p_star := star |} :: ps, eol)
                | None => None
                end
            end
      end
  end.

Definition parse (p : str) : option pattern :=
  let (bol, rest) :=
    match p with
    | c :: rest => if Ascii.eqb c "^" then (true, rest) else (false, p)
    | [] => (false, p)
    end in
  match parse_pieces (S (List.length rest)) rest with
  | Some (ps, eol) =>
      Some {| p_from_start := bol; p_pieces := ps; p_to_end := eol |}
  | None => None
  end.

(** [Canonicalize] under the [i] flag without [u]: the upper-case form
    of a code unit when that is again a single code unit. Within the
    8-bit range, [a]-[z] and the accented letters E0-FE (F7 apart) move
    down by 32; B5 and FF have upper-case forms outside the range that
    no other 8-bit code unit shares, and stay. *)
Definition canonicalize (c : ascii) : ascii :=
  let n := nat_of_ascii c in
  if ((97 <=? n) && (n <=? 122))
     || ((224 <=? n) && (n <=? 254) && negb (n =? 247))
  then ascii_of_nat (n - 32)
  else c.

Definition canon (ignoreCase : bool) (c : ascii) : ascii :=
  if ignoreCase then canonicalize c else c.

(** Line terminators that [.] refuses (LF and CR; the other two are not
    8-bit). *)
Definition line_terminator (c : ascii) : bool :=
  (nat_of_ascii c =? 10) || (nat_of_ascii c =? 13).

Definition atom_accepts (ignoreCase : bool) (a : atom) (c : ascii) : bool :=
  match a with
  | A_char d => Ascii.eqb (canon ignoreCase c) (canon ignoreCase d)
  | A_dot => negb (line_terminator c)
  | A_class negated members =>
      xorb negated
        (existsb (fun m => Ascii.eqb (canon ignoreCase m) (canon ignoreCase c))
           members)
  end.

Definition piece_re (ignoreCase : bool) (p : piece) : Re.regex :=
  let r := Re.Class (atom_accepts ignoreCase (p_atom p)) in
  if p_star p then Re.Many r else r.

Definition to_literal (ignoreCase : bool) (pat : pattern) : Re.literal :=
  Re.Literal (p_from_start pat)
    (Re.cat_all (map (piece_re ignoreCase) (p_pieces pat)))
    (p_to_end pat).

Definition matches (ignoreCase : bool) (pat : pattern) (s : str) : bool :=
  Re.test (to_literal ignoreCase pat) s.

(** The flags argument: absent or empty, or exactly [i]. *)
Definition ignore_case (flags : option str) : option bool :=
  match flags with
  | None => Some false
  | Some [] => Some false
  | Some ["i"%char] => Some true
  | Some _ => None
  end.

(** The host agrees with ECMAScript on the fragment: such a pattern
    compiles, and the compiled expression tests as [matches] says. *)
Definition conforms (E : Engine) : Prop :=
  forall p flags pat ci,
    parse p = Some pat ->
    ignore_case flags = Some ci ->
    exists r,
      compile E p flags = Returns r /\
      forall s, exec_test E r s = Returns (matches ci pat s).

(** The least engine that conforms: it knows the fragment and nothing
    else. *)
Definition reference : Engine := {|
  RegExp := pattern * bool * str;
  compile := fun p flags =>
    match parse p, ignore_case flags with
    | Some pat, Some ci => Returns (pat, ci, p)
    | _, _ => Throws (ErrorObject (lit "Invalid regular expression"))
    end;
  exec_test := fun r s =>
    let '(pat, ci, _) := r in Returns (matches ci pat s);
  source := fun r => let '(_, _, p) := r in p
|}.

End Fragment.

(** ** Predicates used in the statements *)

(** The code units that [escapeForRegex] puts a backslash before, the
    backslash itself apart. *)
Definition guarded_char (c : ascii) : bool := chr_in ".*+?^${}()|[]" c.

(** [y] is such a code unit and [x], before it, is not a backslash. *)
Definition unguarded (x y : ascii) : bool :=
  negb (Ascii.eqb x "\") && guarded_char y.

(** Every such code unit of [s] comes right after a backslash; [prev] is
    the code unit before [s], if any. *)
Fixpoint well_guarded (prev : option ascii) (s : str) : bool :=
  match s with
  | [] => true
  | c :: s' =>
      (negb (guarded_char c) || negb (not_backslash prev))
      && well_guarded (Some c) s'
  end.

(** The piece that matches the code unit [c] itself. *)
Definition literal_piece (c : ascii) : Fragment.piece :=
  {| Fragment.p_atom := Fragment.A_char c; Fragment.p_star := false |}.

(** [T] occurs in [s], up to case. *)
Definition occurs_ignoring_case (T s : str) : Prop :=
  exists pre m post,
    s = pre ++ m ++ post /\
    map Fragment.canonicalize m = map Fragment.canonicalize T.

(** A safe result that carries the compiled expression [r]. *)
Definition accepted (R : Type) (r : R) : SafeRegexResult R :=
  {| safe := true; regex := Some r; error := None; reason := Some ok |}.

(** Some adjacent pair of code units satisfies [bad]. *)
Fixpoint has_pair (bad : ascii -> ascii -> bool) (s : str) : bool :=
  match s with
  | x :: s' =>
      match s' with
      | y :: _ => bad x y || has_pair bad s'
      | [] => false
      end
  | [] => false
  end.

(** ** The instance's configuration (constructor, configure, getConfig) *)

(** [Partial<SafeRegexConfig>]: the keys that an object sets. A key that
    is present carries a value of the field's type; for the two optional
    callbacks that value may be [undefined] ([Some None]). *)
Record PartialConfig (W : Type) : Type := {
  set_maxLength : option Z;
  set_timeoutMs : option Z;
  set_maxBacktrackDepth : option Z;
  set_onBlock : option (option (str -> str -> W -> W));
  set_onWarning : option (option (str -> str -> W -> W))
}.

(** One key of [{ ...base, ...over }]. *)
Definition spread_key (A : Type) (base : A) (over : option A) : A :=
  match over with
  | Some v => v
  | None => base
  end.

(** [{ ...base, ...over }] on a full configuration. *)
Definition spread (W : Type) (base : SafeRegexConfig W) (over : PartialConfig W)
    : SafeRegexConfig W := {|
  maxLength := spread_key (maxLength base) (set_maxLength over);
  timeoutMs := spread_key (timeoutMs base) (set_timeoutMs over);
  maxBacktrackDepth := spread_key (maxBacktrackDepth base) (set_maxBacktrackDepth over);
  onBlock := spread_key (onBlock base) (set_onBlock over);
  onWarning := spread_key (onWarning base) (set_onWarning over)
|}.

(** [{ ...p, ...q }] on two partial objects: a key is present when either
    has it, and [q] wins. *)
Definition spread_partial (W : Type) (p q : PartialConfig W) : PartialConfig W := {|
  set_maxLength := spread_key (set_maxLength p) (option_map Some (set_maxLength q));
  set_timeoutMs := spread_key (set_timeoutMs p) (option_map Some (set_timeoutMs q));
  set_maxBacktrackDepth :=
    spread_key (set_maxBacktrackDepth p) (option_map Some (set_maxBacktrackDepth q));
  set_onBlock := spread_key (set_onBlock p) (option_map Some (set_onBlock q));
  set_onWarning := spread_key (set_onWarning p) (option_map Some (set_onWarning q))
|}.

(** The object [{}]. *)
Definition no_keys (W : Type) : PartialConfig W := {|
  set_maxLength := None;
  set_timeoutMs := None;
  set_maxBacktrackDepth := None;
  set_onBlock := None;
  set_onWarning := None
|}.

(** [new SafeRegex(config)]: the configuration the instance holds. *)
Definition new_SafeRegex (W : Type) (config : PartialConfig W) : SafeRegexConfig W :=
  spread (DEFAULT_CONFIG W) config.

(** [configure(config)]: the configuration held afterwards. *)
Definition configure (W : Type) (held : SafeRegexConfig W) (config : PartialConfig W)
    : SafeRegexConfig W :=
  spread held config.

(** [getConfig()]: a fresh object with the keys of the held one. *)
Definition getConfig (W : Type) (held : SafeRegexConfig W) : SafeRegexConfig W :=
  spread held (no_keys W).

(** ** create on an instance that its callbacks can reach

    [onBlock] is the caller's closure: it may hold the instance and call
    [configure] on it while [create] is running. Here the instance is
    part of the world: [this_config w] is [this.config] in the world [w],
    and each step reads it in the world that the source reads
    [this.config] in. [create] above is the case of callbacks that leave
    the instance alone. *)
Module OnInstance.
Section Methods.

Variable W : Type.
Variable E : Engine.
Variable this_config : W -> SafeRegexConfig W.

(** [this.notify(type, message, pattern)]: each [if] looks its callback
    up in [this.config] as it is when the [if] is reached. *)
Definition notify (type : notice) (message pattern : str) (w : W) : W :=
  let w1 :=
    match type, onBlock (this_config w) with
    | block, Some f => f message pattern w
    | _, _ => w
    end in
  match type, onWarning (this_config w1) with
  | warning, Some f => f message pattern w1
  | _, _ => w1
  end.

(** In the length branch the template literal of the message is
    evaluated before [notify] is called, and the one of [error] after it
    has returned. *)
Definition create (pattern : str) (flags : option str) (w : W)
    : SafeRegexResult (RegExp E) * W :=
  if (Z.of_nat (List.length pattern) >? maxLength (this_config w))%Z then
    let message :=
      lit "Pattern exceeds maximum length of "
      ++ show_number (maxLength (this_config w)) in
    let w1 := notify block message pattern w in
    ({| safe := false;
        regex := None;
        error := Some (lit "Pattern exceeds maximum length of "
                       ++ show_number (maxLength (this_config w1)));
        reason := Some pattern_too_long |}, w1)
  else
    let compiled :=
      match compile E pattern flags with
      | Returns regex =>
          ({| safe := true; regex := Some regex; error := None;
              reason := Some ok |}, w)
      | Throws error =>
          ({| safe := false;
              regex := None;
              error := Some (lit "Invalid regex syntax: " ++
                             match error with
                             | ErrorObject message => message
                             | OtherValue => lit "Unknown error"
                             end);
              reason := Some invalid_syntax |}, w)
      end in
    if negb (quickSafetyCheck pattern) then
      let analysis := analyzePattern pattern in
      if negb (a_safe analysis) then
        let w1 :=
          notify block
            (or_else (a_message analysis) (lit "Pattern blocked")) pattern w in
        ({| safe := false;
            regex := None;
            error := a_message analysis;
            reason := a_reason analysis |}, w1)
      else compiled
    else compiled.

End Methods.
End OnInstance.

(** ** Globs, token by token *)

(** What one left-to-right reading of a glob meets: two stars together,
    one star, a question mark, or any other code unit. *)
Inductive glob_token : Type :=
| G_lit (c : ascii)
| G_star
| G_globstar
| G_quest.

Fixpoint glob_tokens (glob : str) : list glob_token :=
  match glob with
  | [] => []
  | c :: rest =>
      if Ascii.eqb c "*" then
        match rest with
        | d :: rest' =>
            if Ascii.eqb d "*" then G_globstar :: glob_tokens rest'
            else G_star :: glob_tokens rest
        | [] => [G_star]
        end
      else if Ascii.eqb c "?" then G_quest :: glob_tokens rest
      else G_lit c :: glob_tokens rest
  end.

(** The text that stands for a token, given the texts for a star, a
    question mark and two stars. *)
Definition token_text (star quest globstar : string) (t : glob_token) : str :=
  match t with
  | G_lit c => if chr_in ".+^${}()|[]\" c then ["\"%char; c] else [c]
  | G_star => lit star
  | G_quest => lit quest
  | G_globstar => lit globstar
  end.

(** The text of a token in the final pattern. *)
Definition token_pattern : glob_token -> str := token_text "[^/]*" "[^/]" ".*".

Definition token_piece (t : glob_token) : Fragment.piece :=
  match t with
  | G_lit c => literal_piece c
  | G_star =>
      {| Fragment.p_atom := Fragment.A_class true ["/"%char];
         Fragment.p_star := true |}
  | G_quest =>
      {| Fragment.p_atom := Fragment.A_class true ["/"%char];
         Fragment.p_star := false |}
  | G_globstar =>
      {| Fragment.p_atom := Fragment.A_dot; Fragment.p_star := true |}
  end.

(** The strings a sequence of tokens stands for: a literal code unit up
    to case, one code unit other than the separator, a run without
    separator, a run without line terminator. *)
Inductive glob_lang : list glob_token -> str -> Prop :=
| GL_nil : glob_lang [] []
| GL_lit : forall c x ts s,
    Fragment.canonicalize x = Fragment.canonicalize c ->
    glob_lang ts s -> glob_lang (G_lit c :: ts) (x :: s)
| GL_quest : forall x ts s,
    x <> "/"%char -> glob_lang ts s -> glob_lang (G_quest :: ts) (x :: s)
| GL_star : forall run ts s,
    Forall (fun x => x <> "/"%char) run ->
    glob_lang ts s -> glob_lang (G_star :: ts) (run ++ s)
| GL_globstar : forall run ts s,
    Forall (fun x => Fragment.line_terminator x = false) run ->
    glob_lang ts s -> glob_lang (G_globstar :: ts) (run ++ s).

(** A literal token is never a star or a question mark, and a star is
    never followed by a star; [after_star] tells whether the token
    before was a single star. *)
Fixpoint tokens_ok (after_star : bool) (ts : list glob_token) : bool :=
  match ts with
  | [] => true
  | G_lit c :: ts' =>
      negb (Ascii.eqb c "*") && negb (Ascii.eqb c "?") && tokens_ok false ts'
  | G_star :: ts' => negb after_star && tokens_ok true ts'
  | G_globstar :: ts' => negb after_star && tokens_ok false ts'
  | G_quest :: ts' => tokens_ok false ts'
  end.

(** Where a left-to-right reading of a glob's pattern stands: at the
    start, between two tokens, after a backslash, after the dot of two
    stars, inside or at the end of the class of a star or question mark
    ([after_star]: the token before was a single star), after a single
    star, after the closing anchor. *)
Inductive glob_state : Type :=
| Q_start
| Q_between
| Q_escape
| Q_dot
| Q_class1 (after_star : bool)
| Q_class2 (after_star : bool)
| Q_class3 (after_star : bool)
| Q_class_end (after_star : bool)
| Q_after_star
| Q_end.

Definition glob_step (q : glob_state) (c : ascii) : option glob_state :=
  match q with
  | Q_start => if Ascii.eqb c "^" then Some Q_between else None
  | Q_escape => Some Q_between
  | Q_dot => if Ascii.eqb c "*" then Some Q_between else None
  | Q_class1 b => if Ascii.eqb c "^" then Some (Q_class2 b) else None
  | Q_class2 b => if Ascii.eqb c "/" then Some (Q_class3 b) else None
  | Q_class3 b => if Ascii.eqb c "]" then Some (Q_class_end b) else None
  | Q_end => None
  | Q_between | Q_class_end _ | Q_after_star =>
      if Ascii.eqb c "\" then Some Q_escape
      else if Ascii.eqb c "[" then
        Some (Q_class1 match q with Q_after_star => true | _ => false end)
      else if Ascii.eqb c "." then Some Q_dot
      else if Ascii.eqb c "$" then Some Q_end
      else if Ascii.eqb c "*" then
        match q with
        | Q_class_end false => Some Q_after_star
        | _ => None
        end
      else if chr_in "+?^{}()|]" c then None
      else Some Q_between
  end.

(** The reading never gets stuck. *)
Fixpoint glob_run (q : glob_state) (s : str) : bool :=
  match s with
  | [] => true
  | c :: s' =>
      match glob_step q c with
      | Some q' => glob_run q' s'
      | None => false
      end
  end.

(** * Properties *)

Unset Implicit Arguments.

(** ** The matcher decides the language *)

Section ReFacts.

Import Re.

Lemma lang_empty_inv : forall s, lang Empty s -> s = [].
Proof. intros s H. inversion H. reflexivity. Qed.

Lemma lang_class_inv : forall p s,
  lang (Class p) s -> exists c, s = [c] /\ p c = true.
Proof. intros p s H. inversion H; subst. eauto. Qed.

Lemma lang_cat_inv : forall a b s,
  lang (Cat a b) s -> exists s1 s2, s = s1 ++ s2 /\ lang a s1 /\ lang b s2.
Proof. intros a b s H. inversion H; subst. eauto. Qed.

Lemma lang_or_inv : forall a b s, lang (Or a b) s -> lang a s \/ lang b s.
Proof. intros a b s H. inversion H; subst; auto. Qed.

Lemma nullable_lang : forall r, nullable r = true <-> lang r [].
Proof.
  induction r; simpl; split; intro H;
    try discriminate; try solve [constructor]; try solve [inversion H].
  - apply andb_true_iff in H. destruct H as [Ha Hb].
    change (@nil ascii) with (@nil ascii ++ []).
    constructor; [apply IHr1 | apply IHr2]; assumption.
  - apply lang_cat_inv in H. destruct H as (s1 & s2 & Heq & H1 & H2).
    symmetry in Heq. apply app_eq_nil in Heq. destruct Heq; subst.
    apply andb_true_iff. split; [apply IHr1 | apply IHr2]; assumption.
  - apply orb_true_iff in H.
    destruct H; [apply L_or_l, IHr1 | apply L_or_r, IHr2]; assumption.
  - apply orb_true_iff. apply lang_or_inv in H.
    destruct H; [left; apply IHr1 | right; apply IHr2]; assumption.
Qed.

Lemma lang_many_cons : forall a c s,
  lang (Many a) (c :: s) ->
  exists s1 s2, s = s1 ++ s2 /\ lang a (c :: s1) /\ lang (Many a) s2.
Proof.
  intros a c s H.
  remember (Many a) as r eqn:Hr. remember (c :: s) as w eqn:Hw.
  revert c s Hw.
  induction H; intros c0 s0 Hw; try discriminate.
  injection Hr as Ha. subst a0.
  destruct s as [|x s]; simpl in Hw.
  - apply IHlang2; auto.
  - injection Hw as Hx Hs. subst x s0. exists s, t. auto.
Qed.

Lemma deriv_lang : forall r c s, lang (deriv c r) s <-> lang r (c :: s).
Proof.
  induction r; intros c s; simpl.
  - split; intro H; inversion H.
  - split; intro H; inversion H.
  - destruct (p c) eqn:Hp; split; intro H.
    + apply lang_empty_inv in H. subst. constructor. assumption.
    + apply lang_class_inv in H. destruct H as (x & Heq & _).
      injection Heq as _ ->. constructor.
    + inversion H.
    + apply lang_class_inv in H. destruct H as (x & Heq & Hx).
      injection Heq as -> _. congruence.
  - assert (Hleft : forall t, lang (Cat (deriv c r1) r2) t -> lang (Cat r1 r2) (c :: t)).
    { intros t H. apply lang_cat_inv in H. destruct H as (s1 & s2 & -> & H1 & H2).
      change (c :: s1 ++ s2) with ((c :: s1) ++ s2).
      constructor; [apply IHr1|]; assumption. }
    destruct (nullable r1) eqn:Hn; split; intro H.
    + apply lang_or_inv in H. destruct H as [H|H]; [auto|].
      change (c :: s) with ([] ++ c :: s).
      constructor; [apply nullable_lang | apply IHr2]; assumption.
    + apply lang_cat_inv in H. destruct H as (s1 & s2 & Heq & H1 & H2).
      destruct s1 as [|x s1]; simpl in Heq.
      * subst s2. apply L_or_r. apply IHr2. assumption.
      * injection Heq as <- ->. apply L_or_l.
        constructor; [apply IHr1|]; assumption.
    + auto.
    + apply lang_cat_inv in H. destruct H as (s1 & s2 & Heq & H1 & H2).
      destruct s1 as [|x s1]; simpl in Heq.
      * apply nullable_lang in H1. congruence.
      * injection Heq as <- ->. constructor; [apply IHr1|]; assumption.
  - split; intro H.
    + apply lang_or_inv in H.
      destruct H; [apply L_or_l, IHr1 | apply L_or_r, IHr2]; assumption.
    + apply lang_or_inv in H.
      destruct H; [apply L_or_l, IHr1 | apply L_or_r, IHr2]; assumption.
  - split; intro H.
    + apply lang_cat_inv in H. destruct H as (s1 & s2 & -> & H1 & H2).
      change (c :: s1 ++ s2) with ((c :: s1) ++ s2).
      constructor; [apply IHr|]; assumption.
    + apply lang_many_cons in H. destruct H as (s1 & s2 & -> & H1 & H2).
      constructor; [apply IHr|]; assumption.
Qed.

Lemma whole_lang : forall s r, whole r s = true <-> lang r s.
Proof.
  induction s as [|c s IH]; intro r; simpl.
  - apply nullable_lang.
  - rewrite IH. apply deriv_lang.
Qed.

Lemma prefix_lang : forall s r,
  prefix r s = true <-> exists m t, s = m ++ t /\ lang r m.
Proof.
  induction s as [|c s IH]; intro r; simpl.
  - rewrite orb_false_r, nullable_lang. split.
    + intro H. exists [], []. auto.
    + intros (m & t & Heq & H). symmetry in Heq.
      apply app_eq_nil in Heq. destruct Heq; subst. assumption.
  - rewrite orb_true_iff, IH, nullable_lang. split.
    + intros [H | (m & t & -> & H)].
      * exists [], (c :: s). auto.
      * exists (c :: m), t. split; [reflexivity|]. apply deriv_lang. assumption.
    + intros (m & t & Heq & H). destruct m as [|x m]; simpl in Heq.
      * left. assumption.
      * injection Heq as <- ->. right. exists m, t.
        split; [reflexivity|]. apply deriv_lang. assumption.
Qed.

(** [test] on a literal without anchors: some substring is in the
    language. *)
Lemma test_unanchored : forall r s,
  test (unanchored r) s = true <->
  exists pre m post, s = pre ++ m ++ post /\ lang r m.
Proof.
  intros r s. unfold test, unanchored; simpl.
  induction s as [|c s IH]; simpl; unfold exec_at; simpl.
  - rewrite !orb_false_r, nullable_lang. split.
    + intro H. exists [], [], []. auto.
    + intros (pre & m & post & Heq & H). symmetry in Heq.
      apply app_eq_nil in Heq. destruct Heq as [_ Heq].
      apply app_eq_nil in Heq. destruct Heq; subst. assumption.
  - rewrite orb_true_iff. rewrite IH.
    change (nullable r || prefix (deriv c r) s) with (prefix r (c :: s)).
    rewrite prefix_lang. split.
    + intros [(m & t & Heq & H) | (pre & m & post & -> & H)].
      * exists [], m, t. auto.
      * exists (c :: pre), m, post. auto.
    + intros (pre & m & post & Heq & H). destruct pre as [|x pre]; simpl in Heq.
      * left. eauto.
      * injection Heq as <- ->. right. eauto.
Qed.

(** [test] on a literal anchored at both ends: the whole input is in the
    language. *)
Lemma test_anchored : forall r s, test (anchored r) s = true <-> lang r s.
Proof. intros r s. unfold test, anchored, exec_at; simpl. apply whole_lang. Qed.

Lemma lang_many_class : forall p s,
  lang (Many (Class p)) s <-> forallb p s = true.
Proof.
  intros p s. split.
  - intro H. remember (Many (Class p)) as r eqn:Hr.
    induction H; try discriminate.
    + reflexivity.
    + injection Hr as ->. apply lang_class_inv in H.
      destruct H as (c & -> & Hc). simpl. rewrite Hc. auto.
  - induction s as [|c s IH]; simpl; intro H.
    + constructor.
    + apply andb_true_iff in H. destruct H as [Hc Hs].
      change (c :: s) with ([c] ++ s).
      constructor; [constructor|]; auto.
Qed.

Lemma lang_some1_class : forall p s,
  lang (Some1 (Class p)) s <-> s <> [] /\ forallb p s = true.
Proof.
  intros p s. unfold Some1. split.
  - intro H. apply lang_cat_inv in H. destruct H as (s1 & s2 & -> & H1 & H2).
    apply lang_class_inv in H1. destruct H1 as (c & -> & Hc).
    apply lang_many_class in H2. simpl. rewrite Hc, H2.
    split; [discriminate | reflexivity].
  - intros [Hne H]. destruct s as [|c s]; [congruence|].
    simpl in H. apply andb_true_iff in H. destruct H as [Hc Hs].
    change (c :: s) with ([c] ++ s).
    constructor; [constructor | apply lang_many_class]; assumption.
Qed.

End ReFacts.

(** ** Character classes and scans *)

Lemma chr_is_iff : forall d c, chr_is d c = true <-> c = d.
Proof. intros d c. unfold chr_is. apply Ascii.eqb_eq. Qed.

Lemma chr_in_iff : forall set c, chr_in set c = true <-> In c (lit set).
Proof.
  intros set c. unfold chr_in. rewrite existsb_exists. split.
  - intros (x & Hin & Heq). apply Ascii.eqb_eq in Heq. subst. assumption.
  - intro H. exists c. split; [assumption | apply Ascii.eqb_refl].
Qed.

Lemma prefix_never : forall s, Re.prefix Re.Never s = false.
Proof. induction s as [|c s IH]; simpl; auto. Qed.

Lemma prefix_empty : forall s, Re.prefix Re.Empty s = true.
Proof. destruct s; reflexivity. Qed.

(** A one-class literal without anchors asks whether some code unit is in
    the class. *)
Lemma test_class : forall p s,
  Re.test (Re.unanchored (Re.Class p)) s = existsb p s.
Proof.
  intros p s. unfold Re.test, Re.unanchored; simpl.
  induction s as [|c s IH]; simpl; unfold Re.exec_at; simpl.
  - reflexivity.
  - rewrite IH. destruct (p c); simpl.
    + rewrite prefix_empty. reflexivity.
    + rewrite prefix_never. reflexivity.
Qed.

Lemma has_pair_cons : forall bad x s,
  has_pair bad s = true -> has_pair bad (x :: s) = true.
Proof.
  intros bad x s H. destruct s as [|y s]; [discriminate|].
  change (has_pair bad (x :: y :: s)) with (bad x y || has_pair bad (y :: s)).
  rewrite H. apply orb_true_r.
Qed.

Lemma has_pair_app : forall bad pre s,
  has_pair bad s = true -> has_pair bad (pre ++ s) = true.
Proof.
  intros bad pre s H. induction pre as [|x pre IH]; simpl app.
  - assumption.
  - apply has_pair_cons. assumption.
Qed.

Lemma has_pair_here : forall bad x y s,
  bad x y = true -> has_pair bad (x :: y :: s) = true.
Proof. intros bad x y s H. simpl. rewrite H. reflexivity. Qed.

(** ** The shape of a pattern that a danger signature matches *)

Ltac lang_inv H :=
  lazymatch type of H with
  | Re.lang (Re.Cat _ _) _ =>
      let s1 := fresh "s" in
      let s2 := fresh "s" in
      let H1 := fresh "H" in
      let H2 := fresh "H" in
      apply lang_cat_inv in H; destruct H as (s1 & s2 & -> & H1 & H2);
      lang_inv H1; lang_inv H2
  | Re.lang (Re.Class (chr_is _)) _ =>
      let c := fresh "c" in
      let Hc := fresh "Hc" in
      apply lang_class_inv in H; destruct H as (c & -> & Hc);
      apply chr_is_iff in Hc; subst c
  | Re.lang (Re.Class _) _ =>
      let c := fresh "c" in
      let Hc := fresh "Hc" in
      apply lang_class_inv in H; destruct H as (c & -> & Hc)
  | Re.lang Re.Empty _ => apply lang_empty_inv in H; subst
  | Re.lang (Re.Many (Re.Class _)) _ => apply lang_many_class in H
  | Re.lang (Re.Some1 (Re.Class _)) _ =>
      let Hne := fresh "Hne" in
      apply lang_some1_class in H; destruct H as [Hne H]
  | _ => idtac
  end.

Ltac signature_inv H :=
  apply test_unanchored in H;
  let pre := fresh "pre" in
  let m := fresh "m" in
  let post := fresh "post" in
  destruct H as (pre & m & post & -> & H);
  cbv [nested_quantifier_re alternation_re repeated_group_re deep_nesting_re
       adjacent_classes_re not_close plus_or_star not_close_bracket
       Re.cat_all] in H;
  lang_inv H;
  repeat (rewrite <- app_assoc; simpl app); simpl app.

Lemma nested_quantifier_shape : forall P,
  Re.test (Re.unanchored nested_quantifier_re) P = true <->
  exists pre a x b q post,
    P = pre ++ "("%char :: a ++ x :: b ++ ")"%char :: q :: post /\
    forallb (chr_not_in ")") a = true /\ chr_in "+*" x = true /\
    forallb (chr_not_in ")") b = true /\ chr_in "+*" q = true.
Proof.
  intro P. split.
  - intro H. signature_inv H.
    do 6 eexists. split; [reflexivity | auto].
  - intros (pre & a & x & b & q & post & -> & Ha & Hx & Hb & Hq).
    apply test_unanchored.
    exists pre, ("("%char :: a ++ x :: b ++ [")"%char; q]), post. split.
    + simpl. repeat (rewrite <- app_assoc; simpl). reflexivity.
    + cbv [nested_quantifier_re not_close plus_or_star Re.cat_all].
      change ("("%char :: a ++ x :: b ++ [")"%char; q])
        with (["("%char] ++ a ++ [x] ++ b ++ [")"%char] ++ [q] ++ []).
      repeat (apply Re.L_cat);
        first [ apply Re.L_class; first [assumption | apply Ascii.eqb_refl]
              | apply lang_many_class; assumption
              | apply Re.L_empty ].
Qed.

Lemma alternation_shape : forall P,
  Re.test (Re.unanchored alternation_re) P = true ->
  exists pre a q post,
    P = pre ++ "("%char :: a ++ ")"%char :: q :: post /\ chr_in "+*" q = true.
Proof.
  intros P H. signature_inv H.
  match goal with
  | |- exists _ _ _ _, ?p ++ "("%char :: ?a ++ "|"%char :: ?b ++ ?r = _ /\ _ =>
      exists p, (a ++ "|"%char :: b)
  end.
  do 2 eexists. rewrite <- app_assoc. simpl. split; [reflexivity | assumption].
Qed.

Lemma repeated_group_shape : forall P,
  Re.test (Re.unanchored repeated_group_re) P = true ->
  exists pre a post,
    P = pre ++ "("%char :: a ++ ")"%char :: "{"%char :: post.
Proof.
  intros P H. signature_inv H.
  do 3 eexists. reflexivity.
Qed.

Lemma deep_nesting_shape : forall P,
  Re.test (Re.unanchored deep_nesting_re) P = true ->
  exists pre a x post,
    P = pre ++ "("%char :: a ++ x :: ")"%char :: post /\ chr_in "+*" x = true.
Proof.
  intros P H. signature_inv H.
  match goal with
  | |- exists _ _ _ _, ?p ++ "("%char :: ?a ++ "("%char :: ?b ++ ?r = _ /\ _ =>
      exists p, (a ++ "("%char :: b)
  end.
  do 2 eexists. rewrite <- app_assoc. simpl. split; [reflexivity | assumption].
Qed.

Lemma adjacent_classes_shape : forall P,
  Re.test (Re.unanchored adjacent_classes_re) P = true ->
  exists pre a q post,
    P = pre ++ "["%char :: a ++ "]"%char :: q :: post /\ chr_in "+*" q = true.
Proof.
  intros P H. signature_inv H.
  do 4 eexists. split; [reflexivity | assumption].
Qed.

(** ** What the signatures need, and what the pre-check looks at *)

Lemma existsb_mid : forall (p : ascii -> bool) pre c post,
  p c = true -> existsb p (pre ++ c :: post) = true.
Proof.
  intros p pre c post H. rewrite existsb_app. simpl. rewrite H.
  apply orb_true_r.
Qed.

Lemma plus_star_quantifier : forall c,
  chr_in "+*" c = true -> chr_in "+*?" c = true.
Proof.
  intros c H. apply chr_in_iff in H. apply chr_in_iff.
  simpl in *. intuition.
Qed.

Lemma signature_needs_group : forall r P,
  In r [nested_quantifier_re; alternation_re; repeated_group_re; deep_nesting_re] ->
  Re.test (Re.unanchored r) P = true ->
  existsb (chr_in "()") P = true.
Proof.
  intros r P Hr H. simpl in Hr.
  destruct Hr as [<- | [<- | [<- | [<- | []]]]].
  - apply nested_quantifier_shape in H.
    destruct H as (pre & a & x & b & q & post & -> & _).
    apply existsb_mid. reflexivity.
  - apply alternation_shape in H. destruct H as (pre & a & q & post & -> & _).
    apply existsb_mid. reflexivity.
  - apply repeated_group_shape in H. destruct H as (pre & a & post & ->).
    apply existsb_mid. reflexivity.
  - apply deep_nesting_shape in H. destruct H as (pre & a & x & post & -> & _).
    apply existsb_mid. reflexivity.
Qed.

Ltac found_by H :=
  repeat (rewrite existsb_app || cbn [existsb]);
  rewrite H; cbn [orb]; rewrite ?orb_true_r; reflexivity.

Lemma signature_needs_quantifier : forall r P,
  In r [nested_quantifier_re; alternation_re; deep_nesting_re; adjacent_classes_re] ->
  Re.test (Re.unanchored r) P = true ->
  existsb (chr_in "+*?") P = true.
Proof.
  intros r P Hr H. simpl in Hr.
  destruct Hr as [<- | [<- | [<- | [<- | []]]]].
  - apply nested_quantifier_shape in H.
    destruct H as (pre & a & x & b & q & post & -> & _ & Hx & _).
    apply plus_star_quantifier in Hx. found_by Hx.
  - apply alternation_shape in H. destruct H as (pre & a & q & post & -> & Hq).
    apply plus_star_quantifier in Hq. found_by Hq.
  - apply deep_nesting_shape in H. destruct H as (pre & a & x & post & -> & Hx).
    apply plus_star_quantifier in Hx. found_by Hx.
  - apply adjacent_classes_shape in H.
    destruct H as (pre & a & q & post & -> & Hq).
    apply plus_star_quantifier in Hq. found_by Hq.
Qed.

Lemma plain_body_no_quantifier : forall m,
  forallb (chr_not_in "+*?()") m = true -> existsb (chr_in "+*?") m = false.
Proof.
  induction m as [|c m IH]; simpl; intro H; [reflexivity|].
  apply andb_true_iff in H. destruct H as [Hc Hm].
  rewrite (IH Hm), orb_false_r.
  destruct (chr_in "+*?" c) eqn:Hq; [|reflexivity].
  apply chr_in_iff in Hq. simpl in Hq.
  destruct Hq as [<- | [<- | [<- | []]]]; discriminate Hc.
Qed.

(** The third test of [quickSafetyCheck] is never the one that answers:
    the pre-check says yes exactly when the pattern has no quantifier
    character or no group delimiter. *)
Lemma quickSafetyCheck_iff : forall P,
  quickSafetyCheck P = true <->
  existsb (chr_in "+*?") P = false \/ existsb (chr_in "()") P = false.
Proof.
  intro P. unfold quickSafetyCheck, any_quantifier_re, any_group_re.
  rewrite !test_class.
  destruct (existsb (chr_in "+*?") P) eqn:Hq; simpl; [|tauto].
  destruct (existsb (chr_in "()") P) eqn:Hg; simpl; [|tauto].
  destruct (Re.test simple_anchored_re P) eqn:Hs.
  - exfalso. unfold simple_anchored_re in Hs. apply test_anchored in Hs.
    cbv [Re.cat_all] in Hs. lang_inv Hs.
    simpl in Hq. rewrite existsb_app in Hq. simpl in Hq.
    rewrite plain_body_no_quantifier in Hq by assumption. discriminate.
  - split; [discriminate | intros [H|H]; discriminate].
Qed.

Lemma quantifier_test : forall c,
  (Ascii.eqb c "+" || Ascii.eqb c "*" || Ascii.eqb c "?") = chr_in "+*?" c.
Proof.
  intro c. unfold chr_in. simpl.
  destruct (Ascii.eqb c "+"), (Ascii.eqb c "*"), (Ascii.eqb c "?"); reflexivity.
Qed.

Lemma nesting_loop_no_quantifier : forall rest prev st,
  existsb (chr_in "+*?") rest = false ->
  maxDepth (nesting_loop prev rest st) = maxDepth st.
Proof.
  induction rest as [|c rest IH]; intros prev st H; simpl; [reflexivity|].
  simpl in H. apply orb_false_iff in H. destruct H as [Hc Hrest].
  rewrite IH by assumption.
  unfold nesting_step. rewrite quantifier_test, Hc. reflexivity.
Qed.

Lemma nesting_loop_no_group : forall rest prev st,
  existsb (chr_in "()") rest = false ->
  inGroup st = 0%Z ->
  maxDepth (nesting_loop prev rest st) = maxDepth st.
Proof.
  induction rest as [|c rest IH]; intros prev st H Hg; simpl; [reflexivity|].
  simpl in H. apply orb_false_iff in H. destruct H as [Hc Hrest].
  unfold chr_in in Hc. simpl in Hc.
  apply orb_false_iff in Hc. destruct Hc as [Ho Hc].
  apply orb_false_iff in Hc. destruct Hc as [Hc _].
  assert (Hstep : nesting_step prev c st = st).
  { unfold nesting_step. rewrite Ho, Hc, Hg. simpl.
    destruct ((Ascii.eqb c "+" || Ascii.eqb c "*" || Ascii.eqb c "?")
              && not_backslash prev); destruct st; simpl in *; congruence. }
  rewrite Hstep. apply IH; assumption.
Qed.

(** ** The analyzer *)

(** [analyzePattern] as the cascade its loop unrolls to. *)
Lemma analyzePattern_cascade : forall P,
  analyzePattern P =
  if Re.test (Re.unanchored nested_quantifier_re) P then
    {| a_safe := false; a_reason := Some nested_quantifiers;
       a_message := Some (lit "Pattern contains nested quantifiers which can cause exponential backtracking") |}
  else if Re.test (Re.unanchored alternation_re) P then
    {| a_safe := false; a_reason := Some overlapping_alternation;
       a_message := Some (lit "Pattern contains alternation with quantifier which may cause backtracking") |}
  else if Re.test (Re.unanchored repeated_group_re) P then
    {| a_safe := false; a_reason := Some catastrophic_backtracking;
       a_message := Some (lit "Pattern contains repeated group which may cause backtracking") |}
  else if Re.test (Re.unanchored deep_nesting_re) P then
    {| a_safe := false; a_reason := Some nested_quantifiers;
       a_message := Some (lit "Pattern contains deeply nested quantifiers") |}
  else if Re.test (Re.unanchored adjacent_classes_re) P then
    {| a_safe := false; a_reason := Some catastrophic_backtracking;
       a_message := Some (lit "Pattern contains overlapping character classes with quantifiers") |}
  else if (countQuantifierNesting P >? 2)%Z then
    {| a_safe := false; a_reason := Some nested_quantifiers;
       a_message := Some (lit "Pattern has excessive quantifier nesting depth ("
                          ++ show_number (countQuantifierNesting P) ++ lit ")") |}
  else {| a_safe := true; a_reason := Some ok; a_message := None |}.
Proof.
  intro P. unfold analyzePattern.
  cbn [find DANGEROUS_PATTERNS d_regex d_reason d_message].
  repeat match goal with
         | |- context [Re.test ?re P] => destruct (Re.test re P); try reflexivity
         end.
Qed.

Lemma analyzer_reason_not_syntax : forall P,
  a_reason (analyzePattern P) <> Some invalid_syntax.
Proof.
  intro P. rewrite analyzePattern_cascade.
  repeat match goal with
         | |- context [if ?b then _ else _] => destruct b
         end; discriminate.
Qed.

(** C9. For every pattern, the reason of the analyzer's verdict is one of
    [ok], [nested_quantifiers], [overlapping_alternation] and
    [catastrophic_backtracking] (so never [pattern_too_long],
    [invalid_syntax] or [execution_timeout]), and the verdict is safe
    exactly when its reason is [ok]. *)
Theorem analyzePattern_verdict : forall P,
  (a_reason (analyzePattern P) = Some ok \/
   a_reason (analyzePattern P) = Some nested_quantifiers \/
   a_reason (analyzePattern P) = Some overlapping_alternation \/
   a_reason (analyzePattern P) = Some catastrophic_backtracking) /\
  a_reason (analyzePattern P) <> Some pattern_too_long /\
  a_reason (analyzePattern P) <> Some invalid_syntax /\
  a_reason (analyzePattern P) <> Some execution_timeout /\
  (a_safe (analyzePattern P) = true <-> a_reason (analyzePattern P) = Some ok).
Proof.
  intro P. rewrite analyzePattern_cascade.
  repeat match goal with
         | |- context [if ?b then _ else _] => destruct b
         end;
    cbn [a_reason a_safe];
    (repeat split; try discriminate; auto 6).
Qed.

(** C1, amended. If the pre-check answers yes, then none of the
    signatures 1, 2 and 4 matches the pattern and its nesting depth is 0:
    the analyzer answers safe unless signature 3 (repeated group with
    bound) or signature 5 (adjacent quantified classes) matches, and its
    reason is then [catastrophic_backtracking]. *)
Theorem quick_check_skips_two_signatures : forall P,
  quickSafetyCheck P = true ->
  Re.test (Re.unanchored nested_quantifier_re) P = false /\
  Re.test (Re.unanchored alternation_re) P = false /\
  Re.test (Re.unanchored deep_nesting_re) P = false /\
  countQuantifierNesting P = 0%Z /\
  (analyzePattern P = {| a_safe := true; a_reason := Some ok; a_message := None |} \/
   a_reason (analyzePattern P) = Some catastrophic_backtracking /\
   (Re.test (Re.unanchored repeated_group_re) P = true \/
    Re.test (Re.unanchored adjacent_classes_re) P = true)).
Proof.
  intros P H. apply quickSafetyCheck_iff in H.
  assert (Hoff : forall r,
    (In r [nested_quantifier_re; alternation_re; deep_nesting_re; adjacent_classes_re] /\
     existsb (chr_in "+*?") P = false) \/
    (In r [nested_quantifier_re; alternation_re; repeated_group_re; deep_nesting_re] /\
     existsb (chr_in "()") P = false) ->
    Re.test (Re.unanchored r) P = false).
  { intros r [[Hr Hq] | [Hr Hg]];
      destruct (Re.test (Re.unanchored r) P) eqn:Ht; try reflexivity.
    - rewrite (signature_needs_quantifier r P Hr Ht) in Hq. discriminate.
    - rewrite (signature_needs_group r P Hr Ht) in Hg. discriminate. }
  assert (Hdepth : countQuantifierNesting P = 0%Z).
  { unfold countQuantifierNesting. destruct H as [Hq | Hg].
    - rewrite nesting_loop_no_quantifier by assumption. reflexivity.
    - rewrite nesting_loop_no_group by (assumption || reflexivity). reflexivity. }
  assert (H1 : Re.test (Re.unanchored nested_quantifier_re) P = false)
    by (apply Hoff; simpl; tauto).
  assert (H2 : Re.test (Re.unanchored alternation_re) P = false)
    by (apply Hoff; simpl; tauto).
  assert (H4 : Re.test (Re.unanchored deep_nesting_re) P = false)
    by (apply Hoff; simpl; tauto).
  repeat (split; [assumption|]).
  rewrite analyzePattern_cascade, H1, H2, H4, Hdepth.
  destruct (Re.test (Re.unanchored repeated_group_re) P); [right; auto|].
  destruct (Re.test (Re.unanchored adjacent_classes_re) P); [right; auto|].
  left. reflexivity.
Qed.

Lemma quick_check_skips_two_signatures_witness :
  quickSafetyCheck (lit "(ab){2}") = true /\
  countQuantifierNesting (lit "(ab){2}") = 0%Z /\
  a_reason (analyzePattern (lit "(ab){2}")) = Some catastrophic_backtracking.
Proof.
  split; [reflexivity|].
  destruct (quick_check_skips_two_signatures (lit "(ab){2}") eq_refl)
    as (_ & _ & _ & Hd & _).
  split; [exact Hd | reflexivity].
Defined.

(** C1 as stated fails: a pattern with two adjacent quantified classes
    and no group delimiter passes the pre-check, and the analyzer
    rejects it. *)
Lemma quick_check_passes_adjacent_classes :
  quickSafetyCheck (lit "[a]+[b]+") = true /\
  analyzePattern (lit "[a]+[b]+") =
    {| a_safe := false; a_reason := Some catastrophic_backtracking;
       a_message := Some (lit "Pattern contains overlapping character classes with quantifiers") |}.
Proof. split; reflexivity. Qed.

(** ** create *)

Lemma length_gate_open : forall W E (config : SafeRegexConfig W) P flags w,
  (Z.of_nat (List.length P) <= maxLength config)%Z ->
  create E config P flags w =
  (let compiled :=
     match compile E P flags with
     | Returns regex =>
         ({| safe := true; regex := Some regex; error := None; reason := Some ok |}, w)
     | Throws error =>
         ({| safe := false; regex := None;
             error := Some (lit "Invalid regex syntax: " ++
                            match error with
                            | ErrorObject message => message
                            | OtherValue => lit "Unknown error"
                            end);
             reason := Some invalid_syntax |}, w)
     end in
   if negb (quickSafetyCheck P) then
     if negb (a_safe (analyzePattern P)) then
       ({| safe := false; regex := None;
           error := a_message (analyzePattern P);
           reason := a_reason (analyzePattern P) |},
        notify config block
          (or_else (a_message (analyzePattern P)) (lit "Pattern blocked")) P w)
     else compiled
   else compiled).
Proof.
  intros W E config P flags w Hlen. unfold create.
  destruct (Z.gtb_spec (Z.of_nat (List.length P)) (maxLength config)); [lia|].
  reflexivity.
Qed.

Lemma length_gate_shut : forall W E (config : SafeRegexConfig W) P flags w,
  (Z.of_nat (List.length P) > maxLength config)%Z ->
  create E config P flags w =
  ({| safe := false; regex := None;
      error := Some (lit "Pattern exceeds maximum length of "
                     ++ show_number (maxLength config));
      reason := Some pattern_too_long |},
   notify config block
     (lit "Pattern exceeds maximum length of " ++ show_number (maxLength config))
     P w).
Proof.
  intros W E config P flags w Hlen. unfold create.
  destruct (Z.gtb_spec (Z.of_nat (List.length P)) (maxLength config)); [|lia].
  reflexivity.
Qed.

Lemma notify_block : forall W (config : SafeRegexConfig W) message P w,
  notify config block message P w =
  match onBlock config with
  | Some f => f message P w
  | None => w
  end.
Proof.
  intros W config message P w. unfold notify.
  destruct (onBlock config); reflexivity.
Qed.


(** C3, amended. Signature 1 flags every pattern that holds an opening
    parenthesis, a run without closing parenthesis in which [+] or [*]
    occurs, the closing parenthesis and then [+] or [*]: the analyzer
    answers [nested_quantifiers], and so does [create] when the pattern
    is within [maxLength]. This covers the group of [a+] followed by
    [+] and the group of [a*] followed by [*], and the former between
    [^] and [$] through [create] under the default configuration. *)
Theorem nested_quantifiers_flagged :
  forall (W : Type) (E : Engine) (config : SafeRegexConfig W)
         (flags : option str) (w : W),
  (forall pre a x b q post,
     forallb (chr_not_in ")") a = true -> chr_in "+*" x = true ->
     forallb (chr_not_in ")") b = true -> chr_in "+*" q = true ->
     let P := pre ++ "("%char :: a ++ x :: b ++ ")"%char :: q :: post in
     a_safe (analyzePattern P) = false /\
     a_reason (analyzePattern P) = Some nested_quantifiers /\
     ((Z.of_nat (List.length P) <= maxLength config)%Z ->
      safe (fst (create E config P flags w)) = false /\
      reason (fst (create E config P flags w)) = Some nested_quantifiers)) /\
  (forall p, In p [lit "(a+)+"; lit "(a*)*"; lit "^(a+)+$"] ->
     createSafeRegex E p flags w =
     ({| safe := false; regex := None;
         error := Some (lit "Pattern contains nested quantifiers which can cause exponential backtracking");
         reason := Some nested_quantifiers |}, w)).
Proof.
  intros W E config flags w. split.
  - intros pre a x b q post Ha Hx Hb Hq P.
    assert (Ht : Re.test (Re.unanchored nested_quantifier_re) P = true).
    { apply nested_quantifier_shape. exists pre, a, x, b, q, post. auto. }
    assert (Hv : analyzePattern P =
      {| a_safe := false; a_reason := Some nested_quantifiers;
         a_message := Some (lit "Pattern contains nested quantifiers which can cause exponential backtracking") |}).
    { rewrite analyzePattern_cascade, Ht. reflexivity. }
    rewrite Hv. cbn [a_safe a_reason]. repeat split.
    + rewrite length_gate_open by assumption.
      assert (Hquick : quickSafetyCheck P = false).
      { destruct (quickSafetyCheck P) eqn:Hquick; [|reflexivity].
        apply quickSafetyCheck_iff in Hquick. destruct Hquick as [Hn | Hn].
        - rewrite (signature_needs_quantifier nested_quantifier_re P) in Hn;
            [discriminate | simpl; tauto | assumption].
        - rewrite (signature_needs_group nested_quantifier_re P) in Hn;
            [discriminate | simpl; tauto | assumption]. }
      rewrite Hquick, Hv. reflexivity.
    + rewrite length_gate_open by assumption.
      assert (Hquick : quickSafetyCheck P = false).
      { destruct (quickSafetyCheck P) eqn:Hquick; [|reflexivity].
        apply quickSafetyCheck_iff in Hquick. destruct Hquick as [Hn | Hn].
        - rewrite (signature_needs_quantifier nested_quantifier_re P) in Hn;
            [discriminate | simpl; tauto | assumption].
        - rewrite (signature_needs_group nested_quantifier_re P) in Hn;
            [discriminate | simpl; tauto | assumption]. }
      rewrite Hquick, Hv. reflexivity.
  - intros p Hp. simpl in Hp. unfold createSafeRegex.
    destruct Hp as [<- | [<- | [<- | []]]];
      (rewrite length_gate_open by (vm_compute; discriminate));
      reflexivity.
Qed.

Lemma nested_quantifiers_flagged_witness :
  forallb (chr_not_in ")") (lit "a") = true /\
  chr_in "+*" "+"%char = true /\
  a_reason (analyzePattern (lit "x(a+b)*y")) = Some nested_quantifiers /\
  reason (fst (create Fragment.reference (DEFAULT_CONFIG unit) (lit "x(a+b)*y") None tt))
    = Some nested_quantifiers.
Proof.
  split; [reflexivity|]. split; [reflexivity|].
  destruct (nested_quantifiers_flagged unit Fragment.reference
              (DEFAULT_CONFIG unit) None tt) as [Hgen _].
  destruct (Hgen (lit "x") (lit "a") "+"%char (lit "b") "*"%char (lit "y")
              eq_refl eq_refl eq_refl eq_refl) as (_ & Hr & Hc).
  split; [exact Hr|].
  apply Hc. vm_compute. discriminate.
Defined.

(** C3 as stated fails on the group of [a{1,}] followed by [+]: signature 1 does not match it and
    the analyzer answers safe. *)
Lemma brace_quantifier_not_flagged :
  Re.test (Re.unanchored nested_quantifier_re) (lit "(a{1,})+") = false /\
  analyzePattern (lit "(a{1,})+") =
    {| a_safe := true; a_reason := Some ok; a_message := None |}.
Proof. split; reflexivity. Qed.

(** C4. A pattern longer than [maxLength] is refused with
    [pattern_too_long] whatever its content and whatever the engine, and
    [onBlock], when configured, is called once, with the message and the
    pattern; this holds in particular at [maxLength + 1] code units. A
    pattern of exactly [maxLength] code units that the analyzer finds
    safe passes the length check without a callback: the result is the
    engine's, safe with reason [ok] when it compiles. *)
Theorem length_gate :
  forall (W : Type) (E : Engine) (config : SafeRegexConfig W)
         (P : str) (flags : option str) (w : W),
  let message :=
    lit "Pattern exceeds maximum length of " ++ show_number (maxLength config) in
  let refused :=
    ({| safe := false; regex := None; error := Some message;
        reason := Some pattern_too_long |},
     match onBlock config with
     | Some f => f message P w
     | None => w
     end) in
  ((Z.of_nat (List.length P) > maxLength config)%Z ->
   create E config P flags w = refused) /\
  (Z.of_nat (List.length P) = (maxLength config + 1)%Z ->
   create E config P flags w = refused) /\
  (Z.of_nat (List.length P) = maxLength config ->
   a_safe (analyzePattern P) = true ->
   snd (create E config P flags w) = w /\
   reason (fst (create E config P flags w)) <> Some pattern_too_long /\
   forall r, compile E P flags = Returns r ->
     create E config P flags w =
     ({| safe := true; regex := Some r; error := None; reason := Some ok |}, w)).
Proof.
  intros W E config P flags w message refused.
  assert (Hshut : (Z.of_nat (List.length P) > maxLength config)%Z ->
                  create E config P flags w = refused).
  { intro H. rewrite length_gate_shut by assumption.
    rewrite notify_block. reflexivity. }
  split; [assumption|]. split; [intro H; apply Hshut; lia|].
  intros Hlen Hsafe. rewrite length_gate_open by lia.
  rewrite Hsafe. cbn [negb].
  destruct (negb (quickSafetyCheck P));
    destruct (compile E P flags) as [r0|e]; cbn [fst snd reason];
    (split; [reflexivity|]); (split; [discriminate|]);
    intros r Hr; congruence.
Qed.

Lemma length_gate_witness :
  (Z.of_nat (List.length (lit "abcdef")) > maxLength
     {| maxLength := 5; timeoutMs := 1000; maxBacktrackDepth := 100000;
        onBlock := Some (fun _ p log => p :: log); onWarning := None |})%Z /\
  create Fragment.reference
    {| maxLength := 5; timeoutMs := 1000; maxBacktrackDepth := 100000;
       onBlock := Some (fun _ p log => p :: log); onWarning := None |}
    (lit "abcdef") None [] =
  ({| safe := false; regex := None;
      error := Some (lit "Pattern exceeds maximum length of 5");
      reason := Some pattern_too_long |}, [lit "abcdef"]) /\
  safe (fst (create Fragment.reference
    {| maxLength := 5; timeoutMs := 1000; maxBacktrackDepth := 100000;
       onBlock := Some (fun _ p log => p :: log); onWarning := None |}
    (lit "abcde") None [])) = true.
Proof.
  split; [reflexivity|].
  pose proof (length_gate (list str) Fragment.reference
    {| maxLength := 5; timeoutMs := 1000; maxBacktrackDepth := 100000;
       onBlock := Some (fun _ p log => p :: log); onWarning := None |}
    (lit "abcdef") None []) as H.
  cbv zeta in H. destruct H as (Hshut & _ & _).
  split; [apply Hshut; reflexivity|].
  pose proof (length_gate (list str) Fragment.reference
    {| maxLength := 5; timeoutMs := 1000; maxBacktrackDepth := 100000;
       onBlock := Some (fun _ p log => p :: log); onWarning := None |}
    (lit "abcde") None []) as H.
  cbv zeta in H. destruct H as (_ & _ & Hopen).
  destruct (Hopen eq_refl eq_refl) as (_ & _ & Hok).
  pose proof (Hok _ eq_refl) as Hc. rewrite Hc. reflexivity.
Defined.

(** C8. When the pattern passes the length gate and the safety checks
    and the engine refuses it, [create] answers [invalid_syntax] with
    the engine's message and leaves the world alone. In any call the
    world is either left alone or changed by one call of [onBlock] with
    the pattern, and only by a result that is unsafe with
    [pattern_too_long] or with the analyzer's reason; a safe result and
    an [invalid_syntax] result leave the world alone. *)
Theorem callback_discipline :
  forall (W : Type) (E : Engine) (config : SafeRegexConfig W)
         (P : str) (flags : option str) (w : W),
  (forall e,
     (Z.of_nat (List.length P) <= maxLength config)%Z ->
     quickSafetyCheck P = true \/ a_safe (analyzePattern P) = true ->
     compile E P flags = Throws e ->
     create E config P flags w =
     ({| safe := false; regex := None;
         error := Some (lit "Invalid regex syntax: " ++
                        match e with
                        | ErrorObject message => message
                        | OtherValue => lit "Unknown error"
                        end);
         reason := Some invalid_syntax |}, w)) /\
  (snd (create E config P flags w) = w \/
   exists f message,
     onBlock config = Some f /\
     snd (create E config P flags w) = f message P w /\
     safe (fst (create E config P flags w)) = false /\
     (reason (fst (create E config P flags w)) = Some pattern_too_long \/
      a_safe (analyzePattern P) = false /\
      reason (fst (create E config P flags w)) = a_reason (analyzePattern P))) /\
  (safe (fst (create E config P flags w)) = true ->
   snd (create E config P flags w) = w) /\
  (reason (fst (create E config P flags w)) = Some invalid_syntax ->
   snd (create E config P flags w) = w).
Proof.
  intros W E config P flags w. split.
  - intros e Hlen Hpass He. rewrite length_gate_open by assumption.
    rewrite He. destruct Hpass as [Hq | Ha].
    + rewrite Hq. reflexivity.
    + rewrite Ha. destruct (negb (quickSafetyCheck P)); reflexivity.
  - destruct (Z.gtb_spec (Z.of_nat (List.length P)) (maxLength config)) as [Hlen | Hlen].
    + rewrite length_gate_shut by lia. rewrite notify_block. cbn [fst snd safe reason].
      split; [|split; discriminate].
      destruct (onBlock config) as [f|]; [right | left; reflexivity].
      exists f. eexists. repeat split. left. reflexivity.
    + rewrite length_gate_open by assumption. cbv zeta.
      destruct (negb (quickSafetyCheck P)).
      * destruct (a_safe (analyzePattern P)) eqn:Ha; cbn [negb].
        -- destruct (compile E P flags); cbn [fst snd safe reason];
             (split; [left; reflexivity | split; reflexivity]).
        -- rewrite notify_block. cbn [fst snd safe reason].
           split; [|split; [discriminate|]].
           ++ destruct (onBlock config) as [f|]; [right | left; reflexivity].
              exists f. eexists. repeat split. right. split; reflexivity.
           ++ intro Hr. destruct (analyzer_reason_not_syntax P Hr).
      * destruct (compile E P flags); cbn [fst snd safe reason];
          (split; [left; reflexivity | split; reflexivity]).
Qed.

Lemma callback_discipline_witness :
  create Fragment.reference
    {| maxLength := 500; timeoutMs := 1000; maxBacktrackDepth := 100000;
       onBlock := Some (fun _ p log => p :: log); onWarning := None |}
    (lit "[") None [] =
  ({| safe := false; regex := None;
      error := Some (lit "Invalid regex syntax: Invalid regular expression");
      reason := Some invalid_syntax |}, []).
Proof.
  pose proof (callback_discipline (list str) Fragment.reference
    {| maxLength := 500; timeoutMs := 1000; maxBacktrackDepth := 100000;
       onBlock := Some (fun _ p log => p :: log); onWarning := None |}
    (lit "[") None []) as (Hsyntax & _).
  apply (Hsyntax (ErrorObject (lit "Invalid regular expression"))).
  - vm_compute. discriminate.
  - left. reflexivity.
  - reflexivity.
Defined.

(** C10. For every instance and every text, [fromUserInput] on the text
    is [create] on [escapeForRegex] of the text with the flag [i]: same
    result, same effect on the world. *)
Theorem fromUserInput_escapes_like_escapeForRegex :
  forall (W : Type) (E : Engine) (config : SafeRegexConfig W) (T : str) (w : W),
  fromUserInput E config T w =
  create E config (escapeForRegex T) (Some (lit "i")) w.
Proof. intros W E config T w. reflexivity. Qed.

(** ** testWithTimeout *)

(** C2. A call of [testWithTimeout] never times out. The match runs
    inside the executor, between [setTimeout] and [clearTimeout], and the
    host cannot run the timer's callback before the executor is over:
    however long the match takes, also longer than [timeoutMs], the call
    is over when the match is and not before, the timer has been
    cancelled, [onWarning] has not been called, and the promise is
    settled by the match alone - fulfilled with its boolean, or rejected
    with the value that [regex.test] threw, never with the time-out
    error. *)
Theorem testWithTimeout_never_times_out :
  forall (W : Type) (E : Engine) (config : SafeRegexConfig W)
         (regex : RegExp E) (input : str) (elapsed : Z) (w : W),
  let run := testWithTimeout_on_clock E config regex input elapsed w in
  fst run = elapsed /\
  armed (snd run) = None /\
  world (snd run) = w /\
  promise (snd run) =
    match exec_test E regex input with
    | Returns value => Fulfilled value
    | Throws e => Rejected e
    end /\
  (forall value, exec_test E regex input = Returns value ->
     promise (snd run) <>
     Rejected (ErrorObject (lit "Regex execution timed out after "
                            ++ show_number (timeoutMs config) ++ lit "ms"))).
Proof.
  intros W E config regex input elapsed w run. subst run.
  unfold testWithTimeout_on_clock, host_idle, executor_on_clock, executor.
  cbn [fst snd].
  destruct (exec_test E regex input) as [value | e];
    cbn [after_test clearTimeout setTimeout resolve reject armed promise world fst snd];
    (repeat split; try reflexivity);
    intros value' Hv; discriminate.
Qed.

(** ** Escaped text passes the analyzer *)

Ltac each_ascii c := destruct c as [[] [] [] [] [] [] [] []].

Lemma escape_class_meta : forall c,
  chr_in ".*+?^${}()|[]\" c = guarded_char c || Ascii.eqb c "\".
Proof. intro c. each_ascii c; reflexivity. Qed.

Lemma syntax_char_meta : forall c,
  Fragment.syntax_char c = chr_in ".*+?^${}()|[]\" c.
Proof. intro c. each_ascii c; reflexivity. Qed.

Lemma unguarded_char_plain : forall c,
  guarded_char c = false ->
  Ascii.eqb c "(" = false /\ Ascii.eqb c ")" = false /\
  chr_in "+*?" c = false /\ Ascii.eqb c "$" = false /\
  Ascii.eqb c "." = false /\ Ascii.eqb c "[" = false /\
  Ascii.eqb c "*" = false /\ Ascii.eqb c "^" = false.
Proof.
  intro c. each_ascii c; vm_compute; intro H;
    first [discriminate H | repeat split].
Qed.

Lemma escapeForRegex_cons : forall c T,
  escapeForRegex (c :: T) =
  (if chr_in ".*+?^${}()|[]\" c then ["\"%char; c] else [c]) ++ escapeForRegex T.
Proof. reflexivity. Qed.

Lemma escapeForRegex_well_guarded : forall T prev,
  well_guarded prev (escapeForRegex T) = true.
Proof.
  induction T as [|c T IH]; intro prev; [reflexivity|].
  rewrite escapeForRegex_cons, escape_class_meta.
  destruct (guarded_char c) eqn:Hg; simpl.
  - rewrite Hg. simpl. apply IH.
  - destruct (Ascii.eqb c "\") eqn:Hb; simpl.
    + rewrite Hg. simpl. apply IH.
    + rewrite Hg. simpl. apply IH.
Qed.

Lemma well_guarded_no_pair : forall s prev,
  well_guarded prev s = true -> has_pair unguarded s = false.
Proof.
  induction s as [|x s IH]; intros prev H; [reflexivity|].
  simpl in H. apply andb_true_iff in H. destruct H as [_ H].
  destruct s as [|y s]; [reflexivity|].
  change (has_pair unguarded (x :: y :: s))
    with (unguarded x y || has_pair unguarded (y :: s)).
  rewrite (IH (Some x) H), orb_false_r.
  simpl in H. apply andb_true_iff in H. destruct H as [H _].
  unfold unguarded.
  destruct (Ascii.eqb x "\"), (guarded_char y); simpl in *;
    first [reflexivity | discriminate].
Qed.

Lemma plus_star_after : forall x q,
  chr_in "+*" q = true -> Ascii.eqb x "\" = false -> unguarded x q = true.
Proof.
  intros x q Hq Hx. unfold unguarded. rewrite Hx.
  apply chr_in_iff in Hq. simpl in Hq.
  destruct Hq as [<- | [<- | []]]; reflexivity.
Qed.

Lemma plus_star_before : forall x,
  chr_in "+*" x = true -> unguarded x ")" = true.
Proof.
  intros x Hx. apply chr_in_iff in Hx. simpl in Hx.
  destruct Hx as [<- | [<- | []]]; reflexivity.
Qed.

Ltac pair_found :=
  repeat first
    [ apply has_pair_here;
      solve [ reflexivity
            | apply plus_star_after; [assumption | reflexivity]
            | apply plus_star_before; assumption ]
    | apply has_pair_app
    | apply has_pair_cons ].

(** Each signature needs a guarded code unit right after a code unit
    that is not a backslash. *)
Lemma signature_needs_unguarded : forall r P,
  In r (map (fun d => Re.body (d_regex d)) DANGEROUS_PATTERNS) ->
  Re.test (Re.unanchored r) P = true ->
  has_pair unguarded P = true.
Proof.
  intros r P Hr H. simpl in Hr.
  destruct Hr as [<- | [<- | [<- | [<- | [<- | []]]]]].
  - apply nested_quantifier_shape in H.
    destruct H as (pre & a & x & b & q & post & -> & _ & _ & _ & Hq).
    pair_found.
  - apply alternation_shape in H. destruct H as (pre & a & q & post & -> & Hq).
    pair_found.
  - apply repeated_group_shape in H. destruct H as (pre & a & post & ->).
    pair_found.
  - apply deep_nesting_shape in H. destruct H as (pre & a & x & post & -> & Hx).
    pair_found.
  - apply adjacent_classes_shape in H.
    destruct H as (pre & a & q & post & -> & Hq).
    pair_found.
Qed.

Lemma nesting_step_guarded : forall prev c st,
  negb (guarded_char c) || negb (not_backslash prev) = true ->
  nesting_step prev c st = st.
Proof.
  intros prev c st H. unfold nesting_step.
  destruct (not_backslash prev); simpl in H.
  - rewrite orb_false_r in H. apply negb_true_iff in H.
    destruct (unguarded_char_plain c H) as (Ho & Hc & Hq & _).
    rewrite quantifier_test, Ho, Hc, Hq. destruct st; reflexivity.
  - rewrite !andb_false_r. destruct st; reflexivity.
Qed.

Lemma nesting_loop_guarded : forall s prev st,
  well_guarded prev s = true -> nesting_loop prev s st = st.
Proof.
  induction s as [|c s IH]; intros prev st H; [reflexivity|].
  simpl in H. apply andb_true_iff in H. destruct H as [Hc Hs].
  simpl. rewrite nesting_step_guarded by assumption. apply IH. assumption.
Qed.

Lemma escaped_text_is_safe : forall T,
  analyzePattern (escapeForRegex T) =
  {| a_safe := true; a_reason := Some ok; a_message := None |}.
Proof.
  intro T.
  assert (Hoff : forall r,
    In r (map (fun d => Re.body (d_regex d)) DANGEROUS_PATTERNS) ->
    Re.test (Re.unanchored r) (escapeForRegex T) = false).
  { intros r Hr.
    destruct (Re.test (Re.unanchored r) (escapeForRegex T)) eqn:Ht; [|reflexivity].
    apply (signature_needs_unguarded r _ Hr) in Ht.
    rewrite (well_guarded_no_pair _ None (escapeForRegex_well_guarded T None)) in Ht.
    discriminate. }
  rewrite analyzePattern_cascade.
  rewrite !Hoff by (simpl; tauto).
  unfold countQuantifierNesting.
  rewrite nesting_loop_guarded by apply escapeForRegex_well_guarded.
  reflexivity.
Qed.

(** ** Escaped text in the pattern fragment *)

Lemma escapeForRegex_head : forall T,
  match escapeForRegex T with
  | d :: _ => Ascii.eqb d "*" = false /\ Ascii.eqb d "^" = false
  | [] => True
  end.
Proof.
  destruct T as [|c T]; [exact I|].
  rewrite escapeForRegex_cons, escape_class_meta.
  destruct (guarded_char c) eqn:Hg; simpl; [split; reflexivity|].
  destruct (Ascii.eqb c "\"); simpl; [split; reflexivity|].
  destruct (unguarded_char_plain c Hg) as (_ & _ & _ & _ & _ & _ & Hs & Hc).
  split; assumption.
Qed.

Lemma parse_pieces_escaped : forall T n,
  List.length (escapeForRegex T) <= n ->
  Fragment.parse_pieces (S n) (escapeForRegex T) =
  Some (map literal_piece T, false).
Proof.
  induction T as [|c T IH]; intros n Hn; [reflexivity|].
  assert (Hstar : forall fuel a,
    List.length (escapeForRegex T) < fuel ->
    (let (star, s3) :=
       match escapeForRegex T with
       | d :: s3 => if Ascii.eqb d "*" then (true, s3) else (false, escapeForRegex T)
       | [] => (false, escapeForRegex T)
       end in
     match Fragment.parse_pieces fuel s3 with
     | Some (ps, eol) =>
         Some ({| Fragment.p_atom := a; Fragment.p_star := star |} :: ps, eol)
     | None => None
     end) =
    Some ({| Fragment.p_atom := a; Fragment.p_star := false |} :: map literal_piece T, false)).
  { intros fuel a Hf. pose proof (escapeForRegex_head T) as Hh.
    destruct fuel as [|fuel]; [lia|].
    destruct (escapeForRegex T) as [|d s3] eqn:He.
    - cbv beta iota. rewrite IH by (simpl in *; lia). reflexivity.
    - destruct Hh as [Hh _]. rewrite Hh. cbv beta iota.
      rewrite IH by (simpl in *; lia). reflexivity. }
  rewrite escapeForRegex_cons, escape_class_meta in *.
  destruct (guarded_char c || Ascii.eqb c "\") eqn:Hm.
  - simpl app in *. simpl in Hn.
    cbn [Fragment.parse_pieces]. change (Ascii.eqb "\" "$") with false. cbv iota.
    unfold Fragment.parse_atom.
    change (Ascii.eqb "\" ".") with false. change (Ascii.eqb "\" "\") with true.
    cbv iota. rewrite syntax_char_meta, escape_class_meta, Hm.
    apply Hstar. lia.
  - simpl app in *. simpl in Hn.
    apply orb_false_iff in Hm. destruct Hm as [Hg Hb].
    destruct (unguarded_char_plain c Hg) as (_ & _ & _ & Hd & Hdot & Hbr & _ & _).
    cbn [Fragment.parse_pieces]. rewrite Hd.
    unfold Fragment.parse_atom.
    rewrite Hdot, Hb, Hbr, syntax_char_meta, escape_class_meta, Hg, Hb.
    cbn [orb]. apply Hstar. lia.
Qed.

Lemma parse_escaped : forall T,
  Fragment.parse (escapeForRegex T) =
  Some {| Fragment.p_from_start := false;
          Fragment.p_pieces := map literal_piece T;
          Fragment.p_to_end := false |}.
Proof.
  intro T. unfold Fragment.parse.
  pose proof (escapeForRegex_head T) as Hh.
  destruct (escapeForRegex T) as [|d s] eqn:He.
  - rewrite <- He, parse_pieces_escaped by lia. reflexivity.
  - destruct Hh as [_ Hh]. rewrite Hh.
    rewrite <- He, parse_pieces_escaped by lia. reflexivity.
Qed.

(** A run of literal pieces accepts the strings that agree with the text
    code unit by code unit, up to [canon]. *)
Lemma lang_literal_pieces : forall ci T m,
  Re.lang (Re.cat_all (map (Fragment.piece_re ci) (map literal_piece T))) m <->
  map (Fragment.canon ci) m = map (Fragment.canon ci) T.
Proof.
  intros ci. induction T as [|c T IH]; intro m; simpl.
  - split.
    + intro H. apply lang_empty_inv in H. subst. reflexivity.
    + intro H. destruct m; [constructor | discriminate].
  - unfold Fragment.piece_re at 1. simpl. split.
    + intro H. apply lang_cat_inv in H. destruct H as (s1 & s2 & -> & H1 & H2).
      apply lang_class_inv in H1. destruct H1 as (x & -> & Hx).
      apply Ascii.eqb_eq in Hx. apply IH in H2. simpl. congruence.
    + intro H. destruct m as [|x m]; [discriminate|].
      simpl in H. injection H as Hx Hm.
      change (x :: m) with ([x] ++ m).
      constructor; [constructor | apply IH; assumption].
      simpl. rewrite Hx. apply Ascii.eqb_refl.
Qed.

Lemma matches_literal_pieces : forall T s,
  Fragment.matches true
    {| Fragment.p_from_start := false;
       Fragment.p_pieces := map literal_piece T;
       Fragment.p_to_end := false |} s = true <->
  occurs_ignoring_case T s.
Proof.
  intros T s. unfold Fragment.matches, Fragment.to_literal. simpl.
  change (Re.Literal false ?r false) with (Re.unanchored r).
  rewrite test_unanchored. unfold occurs_ignoring_case.
  split; intros (pre & m & post & Heq & H); exists pre, m, post;
    (split; [assumption|]); apply (lang_literal_pieces true); assumption.
Qed.

(** ** Patterns of the fragment through create *)

Lemma reference_conforms : Fragment.conforms Fragment.reference.
Proof.
  intros p flags pat ci Hp Hf. simpl. rewrite Hp, Hf.
  eexists. split; reflexivity.
Qed.

Lemma create_in_fragment :
  forall (W : Type) (E : Engine) (config : SafeRegexConfig W) p pat (w : W),
  Fragment.conforms E ->
  (Z.of_nat (List.length p) <= maxLength config)%Z ->
  quickSafetyCheck p = true \/ a_safe (analyzePattern p) = true ->
  Fragment.parse p = Some pat ->
  exists r,
    create E config p (Some (lit "i")) w = (accepted r, w) /\
    forall s, exec_test E r s = Returns (Fragment.matches true pat s).
Proof.
  intros W E config p pat w Hconf Hlen Hpass Hparse.
  destruct (Hconf p (Some (lit "i")) pat true Hparse eq_refl) as (r & Hc & Ht).
  exists r. split; [|assumption].
  rewrite length_gate_open by assumption. rewrite Hc.
  destruct Hpass as [Hq | Ha].
  - rewrite Hq. reflexivity.
  - rewrite Ha. destruct (negb (quickSafetyCheck p)); reflexivity.
Qed.

(** C5, amended. On a host that implements the pattern fragment, for
    every text whose escaped form is within [maxLength], [fromUserInput]
    returns a safe result without a callback, and the compiled
    expression matches exactly the strings in which the text occurs, up
    to case. The escaped form always passes the analyzer; when it is
    longer than [maxLength] the answer is [pattern_too_long]. *)
Theorem fromUserInput_matches_literally :
  forall (W : Type) (E : Engine) (config : SafeRegexConfig W) (T : str) (w : W),
  Fragment.conforms E ->
  a_safe (analyzePattern (escapeForRegex T)) = true /\
  ((Z.of_nat (List.length (escapeForRegex T)) <= maxLength config)%Z ->
   exists r,
     fromUserInput E config T w = (accepted r, w) /\
     forall s, exists b,
       exec_test E r s = Returns b /\ (b = true <-> occurs_ignoring_case T s)) /\
  ((Z.of_nat (List.length (escapeForRegex T)) > maxLength config)%Z ->
   reason (fst (fromUserInput E config T w)) = Some pattern_too_long).
Proof.
  intros W E config T w Hconf.
  change (fromUserInput E config T w)
    with (create E config (escapeForRegex T) (Some (lit "i")) w).
  split; [rewrite escaped_text_is_safe; reflexivity|]. split.
  - intro Hlen.
    destruct (create_in_fragment W E config (escapeForRegex T) _ w Hconf Hlen
                (or_intror (f_equal a_safe (escaped_text_is_safe T)))
                (parse_escaped T)) as (r & Hc & Ht).
    exists r. split; [assumption|].
    intro s. eexists. split; [apply Ht|]. apply matches_literal_pieces.
  - intro Hlen. rewrite length_gate_shut by assumption. reflexivity.
Qed.

Lemma fromUserInput_matches_literally_witness :
  exists r,
    fromUserInput Fragment.reference (DEFAULT_CONFIG unit) (lit "file (1).txt") tt
      = (accepted r, tt) /\
    exec_test Fragment.reference r (lit "see FILE (1).TXT here") = Returns true /\
    exec_test Fragment.reference r (lit "file 1.txt") = Returns false.
Proof.
  destruct (fromUserInput_matches_literally unit Fragment.reference
              (DEFAULT_CONFIG unit) (lit "file (1).txt") tt reference_conforms)
    as (_ & Hin & _).
  assert (Hlen : (Z.of_nat (List.length (escapeForRegex (lit "file (1).txt")))
                  <= maxLength (DEFAULT_CONFIG unit))%Z)
    by (vm_compute; discriminate).
  destruct (Hin Hlen) as (r & Hr & _).
  exists r. split; [exact Hr|].
  vm_compute in Hr. injection Hr as Hr. subst r. split; reflexivity.
Defined.

(** C5 as stated fails: a text within [maxLength] whose escaped form is
    longer is refused. Three hundred dots under the default
    configuration escape to six hundred code units. *)
Lemma fromUserInput_refuses_long_escape :
  (Z.of_nat (List.length (repeat "."%char 300)) <= maxLength (DEFAULT_CONFIG unit))%Z /\
  fromUserInput Fragment.reference (DEFAULT_CONFIG unit) (repeat "."%char 300) tt =
  ({| safe := false; regex := None;
      error := Some (lit "Pattern exceeds maximum length of 500");
      reason := Some pattern_too_long |}, tt).
Proof. split; [vm_compute; discriminate | vm_compute; reflexivity]. Qed.

(** C7. On a host that implements the pattern fragment and for an
    instance whose [maxLength] is at least 14: [globToRegex] of "*.md"
    is safe and its expression matches "readme.md" and neither
    "readme.txt" nor "a/readme.md"; [globToRegex] of "**/*.md" is safe
    and its expression matches "a/b/readme.md". *)
Theorem glob_round_trip :
  forall (W : Type) (E : Engine) (config : SafeRegexConfig W) (w : W),
  Fragment.conforms E ->
  (14 <= maxLength config)%Z ->
  (exists r,
     globToRegex E config (lit "*.md") w = (accepted r, w) /\
     exec_test E r (lit "readme.md") = Returns true /\
     exec_test E r (lit "readme.txt") = Returns false /\
     exec_test E r (lit "a/readme.md") = Returns false) /\
  (exists r,
     globToRegex E config (lit "**/*.md") w = (accepted r, w) /\
     exec_test E r (lit "a/b/readme.md") = Returns true).
Proof.
  intros W E config w Hconf Hmax. unfold globToRegex. split.
  - change (glob_pattern (lit "*.md")) with (lit "^[^/]*\.md$").
    destruct (Fragment.parse (lit "^[^/]*\.md$")) as [pat|] eqn:Hp;
      [|discriminate Hp].
    destruct (create_in_fragment W E config (lit "^[^/]*\.md$") pat w Hconf)
      as (r & Hc & Ht); [simpl List.length; lia | left; reflexivity | exact Hp |].
    exists r. split; [exact Hc|]. rewrite !Ht.
    vm_compute in Hp. injection Hp as <-. repeat split.
  - change (glob_pattern (lit "**/*.md")) with (lit "^.*/[^/]*\.md$").
    destruct (Fragment.parse (lit "^.*/[^/]*\.md$")) as [pat|] eqn:Hp;
      [|discriminate Hp].
    destruct (create_in_fragment W E config (lit "^.*/[^/]*\.md$") pat w Hconf)
      as (r & Hc & Ht); [simpl List.length; lia | left; reflexivity | exact Hp |].
    exists r. split; [exact Hc|]. rewrite !Ht.
    vm_compute in Hp. injection Hp as <-. repeat split.
Qed.

Lemma glob_round_trip_witness :
  exists r,
    globToSafeRegex Fragment.reference (lit "*.md") tt = (accepted r, tt) /\
    exec_test Fragment.reference r (lit "readme.md") = Returns true /\
    exec_test Fragment.reference r (lit "readme.txt") = Returns false /\
    exec_test Fragment.reference r (lit "a/readme.md") = Returns false.
Proof.
  assert (Hmax : (14 <= maxLength (DEFAULT_CONFIG unit))%Z)
    by (vm_compute; discriminate).
  destruct (glob_round_trip unit Fragment.reference (DEFAULT_CONFIG unit) tt
              reference_conforms Hmax) as (Hmd & _).
  exact Hmd.
Defined.

(** C6 on the code: the braces of a glob are escaped, so on a host that
    implements the pattern fragment the expression that [globToRegex]
    builds from "*.{ts,tsx}" matches neither "file.tsx" nor "file.ts";
    it matches the name that spells the braces out. *)
Theorem glob_braces_match_literally :
  forall (W : Type) (E : Engine) (config : SafeRegexConfig W) (w : W),
  Fragment.conforms E ->
  (19 <= maxLength config)%Z ->
  glob_pattern (lit "*.{ts,tsx}") = lit "^[^/]*\.\{ts,tsx\}$" /\
  exists r,
    globToRegex E config (lit "*.{ts,tsx}") w = (accepted r, w) /\
    exec_test E r (lit "file.tsx") = Returns false /\
    exec_test E r (lit "file.ts") = Returns false /\
    exec_test E r (lit "file.{ts,tsx}") = Returns true.
Proof.
  intros W E config w Hconf Hmax. split; [reflexivity|]. unfold globToRegex.
  change (glob_pattern (lit "*.{ts,tsx}")) with (lit "^[^/]*\.\{ts,tsx\}$").
  destruct (Fragment.parse (lit "^[^/]*\.\{ts,tsx\}$")) as [pat|] eqn:Hp;
    [|discriminate Hp].
  destruct (create_in_fragment W E config (lit "^[^/]*\.\{ts,tsx\}$") pat w Hconf)
    as (r & Hc & Ht); [simpl List.length; lia | left; reflexivity | exact Hp |].
  exists r. split; [exact Hc|]. rewrite !Ht.
  vm_compute in Hp. injection Hp as <-. repeat split.
Qed.

Lemma glob_braces_match_literally_witness :
  exists r,
    globToSafeRegex Fragment.reference (lit "*.{ts,tsx}") tt = (accepted r, tt) /\
    exec_test Fragment.reference r (lit "file.tsx") = Returns false /\
    exec_test Fragment.reference r (lit "file.ts") = Returns false /\
    exec_test Fragment.reference r (lit "file.{ts,tsx}") = Returns true.
Proof.
  assert (Hmax : (19 <= maxLength (DEFAULT_CONFIG unit))%Z)
    by (vm_compute; discriminate).
  destruct (glob_braces_match_literally unit Fragment.reference
              (DEFAULT_CONFIG unit) tt reference_conforms Hmax) as (_ & Hts).
  exact Hts.
Defined.

(** ** The repository's own tests, on the embedding *)

Example test_analyze_blocks :
  a_reason (analyzePattern (lit "^(a+)+$")) = Some nested_quantifiers /\
  a_safe (analyzePattern (lit "(a|ab)+")) = false /\
  a_reason (analyzePattern (lit "(a+){10}")) = Some catastrophic_backtracking /\
  a_safe (analyzePattern (lit "((a+)+)")) = false /\
  a_safe (analyzePattern (lit "(a|b)+")) = false.
Proof. repeat split. Qed.

Example test_analyze_allows :
  forall p,
  In p [lit "hello"; lit "^[a-z]+$"; lit "^.*\.md$"; lit "^[^@]+@[^@]+\.[a-z]+$";
        lit "^[0-9a-f]{8}-[0-9a-f]{4}-[0-9a-f]{4}-[0-9a-f]{4}-[0-9a-f]{12}$";
        lit "[a-z]+"] ->
  a_safe (analyzePattern p) = true.
Proof.
  intros p Hp. simpl in Hp.
  repeat (destruct Hp as [<- | Hp]; [vm_compute; reflexivity|]).
  destruct Hp.
Qed.

Example test_quickSafetyCheck :
  quickSafetyCheck (lit "hello") = true /\
  quickSafetyCheck (lit "^abc$") = true /\
  quickSafetyCheck (lit "a+") = true /\
  quickSafetyCheck (lit "[a-z]*") = true /\
  quickSafetyCheck (lit "(a+)+") = false /\
  quickSafetyCheck (lit "^hello$") = true.
Proof. repeat split. Qed.

Example test_escapeForRegex :
  escapeForRegex (lit "a.b*c") = lit "a\.b\*c" /\
  escapeForRegex [] = [] /\
  escapeForRegex (lit ".*+?^${}()|[]\") = lit "\.\*\+\?\^\$\{\}\(\)\|\[\]\\".
Proof. repeat split. Qed.

Example test_redos_vectors_blocked :
  forall (E : Engine) p,
  In p [lit "^(a+)+$";
        lit "^([a-zA-Z0-9])(([-.]|[_]+)?([a-zA-Z0-9]+))*(@){1}[a-z0-9]+[.]{1}(([a-z]{2,3})|([a-z]{2,3}[.]{1}[a-z]{2,3}))$";
        lit "^(.*a){20}$"; lit "([a-zA-Z]+)*"; lit "(a|aa)+"] ->
  safe (fst (createSafeRegex E p None tt)) = false /\
  error (fst (createSafeRegex E p None tt)) <> None.
Proof.
  intros E p Hp. simpl in Hp. unfold createSafeRegex.
  repeat (destruct Hp as [<- | Hp];
          [rewrite length_gate_open by (vm_compute; discriminate);
           vm_compute; split; [reflexivity | discriminate]|]).
  destruct Hp.
Qed.

Example test_glob_patterns :
  glob_pattern (lit "**.md") = lit "^.*\.md$" /\
  glob_pattern (lit "file?.txt") = lit "^file[^/]\.txt$" /\
  glob_pattern (lit "file (1).txt") = lit "^file \(1\)\.txt$" /\
  glob_pattern (lit "file[1].txt") = lit "^file\[1\]\.txt$" /\
  glob_pattern (lit "***") = lit "^.*[^/]*$" /\
  glob_pattern [] = lit "^$".
Proof. repeat split. Qed.

(** * Further properties of the code *)

(** ** quickSafetyCheck and analyzePattern *)

(** X1. The pre-check is decided by its first two scans: it answers yes
    exactly when the pattern has no quantifier character or no group
    delimiter. Its third test, the anchored-literal shape, is only
    reached by patterns that have both, and never matches one of them. *)
Theorem quick_check_third_test_never_decides : forall P,
  quickSafetyCheck P =
    negb (existsb (chr_in "+*?") P) || negb (existsb (chr_in "()") P) /\
  (Re.test any_quantifier_re P = true ->
   Re.test any_group_re P = true ->
   Re.test simple_anchored_re P = false).
Proof.
  intro P. split.
  - destruct (quickSafetyCheck P) eqn:Hq.
    + apply quickSafetyCheck_iff in Hq.
      destruct Hq as [-> | ->]; [reflexivity | symmetry; apply orb_true_r].
    + destruct (existsb (chr_in "+*?") P) eqn:H1;
        destruct (existsb (chr_in "()") P) eqn:H2; try reflexivity;
        exfalso;
        assert (Ht : quickSafetyCheck P = true)
          by (apply quickSafetyCheck_iff; auto);
        congruence.
  - intros H1 H2.
    destruct (Re.test simple_anchored_re P) eqn:H3; [|reflexivity].
    assert (Ht : quickSafetyCheck P = true)
      by (unfold quickSafetyCheck; rewrite H1, H2, H3; reflexivity).
    apply quickSafetyCheck_iff in Ht.
    unfold any_quantifier_re, any_group_re in H1, H2.
    rewrite test_class in H1, H2. destruct Ht; congruence.
Qed.

Lemma quick_check_third_test_never_decides_witness :
  Re.test simple_anchored_re (lit "^(ab)?$") = false.
Proof.
  apply (quick_check_third_test_never_decides (lit "^(ab)?$")); reflexivity.
Defined.


Lemma nesting_loop_no_open : forall rest prev st,
  existsb (chr_is "(") rest = false ->
  inGroup st = 0%Z ->
  maxDepth (nesting_loop prev rest st) = maxDepth st.
Proof.
  induction rest as [|c rest IH]; intros prev st H Hg; simpl; [reflexivity|].
  simpl in H. apply orb_false_iff in H. destruct H as [Hc Hrest].
  unfold chr_is in Hc.
  assert (Hstep : maxDepth (nesting_step prev c st) = maxDepth st /\
                  inGroup (nesting_step prev c st) = 0%Z).
  { unfold nesting_step. rewrite Hc, Hg. simpl.
    destruct (Ascii.eqb c ")" && not_backslash prev);
      destruct ((Ascii.eqb c "+" || Ascii.eqb c "*" || Ascii.eqb c "?")
                && not_backslash prev); simpl; auto. }
  destruct Hstep as [Hm Hi]. rewrite IH; assumption.
Qed.

(** X2. A pattern without an opening parenthesis and without an opening
    bracket is always safe for the analyzer: every danger signature
    needs one of the two, and so does a positive nesting depth. *)
Theorem analyzer_accepts_without_group_or_class : forall P,
  existsb (chr_in "([") P = false ->
  analyzePattern P = {| a_safe := true; a_reason := Some ok; a_message := None |}.
Proof.
  intros P H.
  assert (Hopen : existsb (chr_is "(") P = false /\ existsb (chr_is "[") P = false).
  { clear -H. induction P as [|c P IH]; [split; reflexivity|].
    simpl in H. apply orb_false_iff in H. destruct H as [Hc HP].
    destruct (IH HP) as [IH1 IH2]. simpl. rewrite IH1, IH2.
    unfold chr_in in Hc. simpl in Hc. unfold chr_is.
    apply orb_false_iff in Hc. destruct Hc as [H1 Hc].
    apply orb_false_iff in Hc. destruct Hc as [H2 _].
    rewrite H1, H2. split; reflexivity. }
  destruct Hopen as [Hp Hb].
  assert (Hmid : forall pre (c : ascii) post d,
            existsb (chr_is d) (pre ++ c :: post) = false -> c <> d).
  { intros pre c post d Hf ->. rewrite existsb_mid in Hf; [discriminate|].
    apply Ascii.eqb_refl. }
  rewrite analyzePattern_cascade.
  destruct (Re.test (Re.unanchored nested_quantifier_re) P) eqn:H1.
  { apply nested_quantifier_shape in H1.
    destruct H1 as (pre & a & x & b & q & post & -> & _).
    exfalso. apply (Hmid _ _ _ _ Hp). reflexivity. }
  destruct (Re.test (Re.unanchored alternation_re) P) eqn:H2.
  { apply alternation_shape in H2. destruct H2 as (pre & a & q & post & -> & _).
    exfalso. apply (Hmid _ _ _ _ Hp). reflexivity. }
  destruct (Re.test (Re.unanchored repeated_group_re) P) eqn:H3.
  { apply repeated_group_shape in H3. destruct H3 as (pre & a & post & ->).
    exfalso. apply (Hmid _ _ _ _ Hp). reflexivity. }
  destruct (Re.test (Re.unanchored deep_nesting_re) P) eqn:H4.
  { apply deep_nesting_shape in H4. destruct H4 as (pre & a & x & post & -> & _).
    exfalso. apply (Hmid _ _ _ _ Hp). reflexivity. }
  destruct (Re.test (Re.unanchored adjacent_classes_re) P) eqn:H5.
  { apply adjacent_classes_shape in H5.
    destruct H5 as (pre & a & q & post & -> & _).
    exfalso. apply (Hmid _ _ _ _ Hb). reflexivity. }
  unfold countQuantifierNesting.
  rewrite nesting_loop_no_open by (assumption || reflexivity). reflexivity.
Qed.

Lemma analyzer_accepts_without_group_or_class_witness :
  a_safe (analyzePattern (lit "^\d{3}-\d{4}$|^x+y*z?$")) = true.
Proof.
  rewrite (analyzer_accepts_without_group_or_class
             (lit "^\d{3}-\d{4}$|^x+y*z?$") eq_refl).
  reflexivity.
Defined.

(** ** countQuantifierNesting *)

Lemma nesting_step_bounds : forall prev c st,
  (0 <= inGroup st)%Z ->
  (0 <= inGroup (nesting_step prev c st)
   <= inGroup st + (if chr_is "(" c then 1 else 0))%Z /\
  (maxDepth st <= maxDepth (nesting_step prev c st)
   <= Z.max (maxDepth st) (inGroup (nesting_step prev c st)))%Z.
Proof.
  intros prev c st Hg. unfold nesting_step, chr_is.
  destruct (Ascii.eqb c "(") eqn:Ho; simpl.
  - destruct (not_backslash prev); simpl;
      repeat match goal with
             | |- context [if ?b then _ else _] => destruct b eqn:?; simpl
             end; try rewrite Z.gtb_ltb in *; lia.
  - repeat match goal with
           | |- context [if ?b then _ else _] => destruct b eqn:?; simpl
           end; try rewrite Z.gtb_ltb in *; lia.
Qed.

Lemma nesting_loop_bounds : forall rest prev st M,
  (0 <= inGroup st)%Z -> (0 <= maxDepth st <= M)%Z ->
  (inGroup st + Z.of_nat (List.length (filter (chr_is "(") rest)) <= M)%Z ->
  (maxDepth st <= maxDepth (nesting_loop prev rest st) <= M)%Z.
Proof.
  induction rest as [|c rest IH]; intros prev st M Hg Hm Hb; simpl; [lia|].
  destruct (nesting_step_bounds prev c st Hg) as [Hi Hd].
  simpl in Hb. destruct (chr_is "(" c); simpl in Hb;
    specialize (IH (Some c) (nesting_step prev c st) M); lia.
Qed.

(** X3. The nesting depth that [countQuantifierNesting] reports is never
    negative and never more than the number of opening parentheses of
    the pattern; a pattern with at most two of them therefore never
    trips the depth threshold of [analyzePattern]. *)
Theorem nesting_depth_bounded_by_open_parens : forall P,
  (0 <= countQuantifierNesting P
   <= Z.of_nat (List.length (filter (chr_is "(") P)))%Z /\
  (List.length (filter (chr_is "(") P) <= 2 ->
   (countQuantifierNesting P >? 2)%Z = false).
Proof.
  intro P.
  assert (H : (0 <= countQuantifierNesting P
               <= Z.of_nat (List.length (filter (chr_is "(") P)))%Z).
  { unfold countQuantifierNesting.
    pose proof (nesting_loop_bounds P None
      {| maxDepth := 0; currentDepth := 0; inGroup := 0 |}
      (Z.of_nat (List.length (filter (chr_is "(") P)))) as Hb.
    simpl in Hb. lia. }
  split; [exact H|]. intro Hn. rewrite Z.gtb_ltb. apply Z.ltb_ge. lia.
Qed.

Lemma nesting_depth_bounded_by_open_parens_witness :
  (countQuantifierNesting (lit "((a+)b?)") >? 2)%Z = false.
Proof.
  apply (nesting_depth_bounded_by_open_parens (lit "((a+)b?)")).
  vm_compute. lia.
Defined.

(** ** create *)

(** X4. The result of [create] has one of two shapes. A safe result
    carries a compiled expression, no error and the reason [ok]. An
    unsafe result carries no expression, a non-empty error text, and one
    of the five reasons [pattern_too_long], [nested_quantifiers],
    [overlapping_alternation], [catastrophic_backtracking] and
    [invalid_syntax]. *)
Theorem create_result_shape :
  forall (W : Type) (E : Engine) (config : SafeRegexConfig W)
         (P : str) (flags : option str) (w : W),
  let r := fst (create E config P flags w) in
  (safe r = true /\ (exists x, regex r = Some x) /\ error r = None /\
   reason r = Some ok) \/
  (safe r = false /\ regex r = None /\
   (exists c m, error r = Some (c :: m)) /\
   In (reason r) [Some pattern_too_long; Some nested_quantifiers;
                  Some overlapping_alternation; Some catastrophic_backtracking;
                  Some invalid_syntax]).
Proof.
  intros W E config P flags w r. subst r.
  destruct (Z.gtb_spec (Z.of_nat (List.length P)) (maxLength config)) as [Hlen | Hlen].
  - rewrite length_gate_shut by lia. right. cbn [fst safe regex error reason].
    repeat split; [do 2 eexists; reflexivity | simpl; auto].
  - rewrite length_gate_open by assumption. cbv zeta.
    assert (Hcompiled :
      forall out, out = compile E P flags ->
      let r := fst (match out with
             | Returns regex0 =>
                 ({| safe := true; regex := Some regex0; error := None;
                     reason := Some ok |}, w)
             | Throws error0 =>
                 ({| safe := false; regex := None;
                     error := Some (lit "Invalid regex syntax: " ++
                                    match error0 with
                                    | ErrorObject message => message
                                    | OtherValue => lit "Unknown error"
                                    end);
                     reason := Some invalid_syntax |}, w)
             end) in
      (safe r = true /\ (exists x, regex r = Some x) /\ error r = None /\
       reason r = Some ok) \/
      (safe r = false /\ regex r = None /\
       (exists c m, error r = Some (c :: m)) /\
       In (reason r) [Some pattern_too_long; Some nested_quantifiers;
                      Some overlapping_alternation; Some catastrophic_backtracking;
                      Some invalid_syntax])).
    { intros out _. destruct out as [x | e]; cbn [fst safe regex error reason].
      - left. repeat split. exists x. reflexivity.
      - right. repeat split; [do 2 eexists; reflexivity | simpl; auto 6]. }
    destruct (negb (quickSafetyCheck P)); [|apply (Hcompiled _ eq_refl)].
    destruct (a_safe (analyzePattern P)) eqn:Ha; cbn [negb];
      [apply (Hcompiled _ eq_refl)|].
    right. cbn [fst safe regex error reason].
    rewrite analyzePattern_cascade in *.
    repeat match goal with
           | H : context [if ?b then _ else _] |- _ => destruct b
           end; try discriminate Ha; cbn [a_message a_reason];
      (repeat split; [do 2 eexists; reflexivity | simpl; auto 6]).
Qed.

Lemma unsafe_verdict_has_message : forall P,
  a_safe (analyzePattern P) = false ->
  exists c m, a_message (analyzePattern P) = Some (c :: m).
Proof.
  intros P Ha. rewrite analyzePattern_cascade in *.
  repeat match goal with
         | H : context [if ?b then _ else _] |- _ => destruct b
         end; try discriminate Ha; cbn [a_message];
    do 2 eexists; reflexivity.
Qed.

Lemma analyzer_reason_not_length : forall P,
  a_reason (analyzePattern P) <> Some pattern_too_long.
Proof.
  intro P. rewrite analyzePattern_cascade.
  repeat match goal with
         | |- context [if ?b then _ else _] => destruct b
         end; discriminate.
Qed.

Lemma create_on_fixed_instance :
  forall (W : Type) (E : Engine) (config : SafeRegexConfig W)
         (P : str) (flags : option str) (w : W),
  OnInstance.create E (fun _ => config) P flags w = create E config P flags w.
Proof. intros W E config P flags w. reflexivity. Qed.

(** X5. What [onBlock] is told, on an instance that the callback can
    reach. When [create] refuses a pattern on the analyzer's verdict,
    the callback receives exactly the text that the result carries in
    [error], never the fallback text. When [create] refuses a pattern
    for its length, the callback receives the text with the limit held
    when [create] was called, and [error] carries the limit held once
    the callback has returned: the two are one text when the callback
    leaves [maxLength] as it was. In both cases the callback runs once,
    with the pattern, on the world of the call. *)
Theorem onBlock_receives_the_error_text :
  forall (W : Type) (E : Engine) (this_config : W -> SafeRegexConfig W)
         (P : str) (flags : option str) (w : W) f,
  onBlock (this_config w) = Some f ->
  safe (fst (OnInstance.create E this_config P flags w)) = false ->
  reason (fst (OnInstance.create E this_config P flags w)) <> Some invalid_syntax ->
  exists text,
    snd (OnInstance.create E this_config P flags w) = f text P w /\
    (reason (fst (OnInstance.create E this_config P flags w)) <> Some pattern_too_long ->
     error (fst (OnInstance.create E this_config P flags w)) = Some text) /\
    (reason (fst (OnInstance.create E this_config P flags w)) = Some pattern_too_long ->
     text = lit "Pattern exceeds maximum length of "
            ++ show_number (maxLength (this_config w)) /\
     error (fst (OnInstance.create E this_config P flags w)) =
       Some (lit "Pattern exceeds maximum length of "
             ++ show_number (maxLength (this_config (f text P w))))) /\
    (maxLength (this_config (f text P w)) = maxLength (this_config w) ->
     error (fst (OnInstance.create E this_config P flags w)) = Some text).
Proof.
  intros W E this_config P flags w f Hf Hsafe Hreason.
  unfold OnInstance.create in *.
  destruct (Z.of_nat (List.length P) >? maxLength (this_config w))%Z.
  - cbv zeta. unfold OnInstance.notify. rewrite Hf. cbn [fst snd error reason].
    eexists. split; [reflexivity|]. split; [|split].
    + intros Hr. exfalso. apply Hr. reflexivity.
    + intros _. split; reflexivity.
    + intros Hm. rewrite Hm. reflexivity.
  - cbv zeta in *. destruct (negb (quickSafetyCheck P)).
    + destruct (a_safe (analyzePattern P)) eqn:Ha; cbn [negb] in *.
      * destruct (compile E P flags); cbn [fst safe reason] in *;
          [discriminate | congruence].
      * destruct (unsafe_verdict_has_message P Ha) as (c & m & Hm).
        unfold OnInstance.notify. rewrite Hf, Hm.
        cbn [fst snd error reason or_else].
        eexists. split; [reflexivity|]. split; [|split].
        -- intros _. reflexivity.
        -- intros Hr. exfalso.
           pose proof (analyzer_reason_not_length P) as Hn.
           apply Hn. exact Hr.
        -- intros _. reflexivity.
    + destruct (compile E P flags); cbn [fst safe reason] in *;
        [discriminate | congruence].
Qed.

Lemma onBlock_receives_the_error_text_witness :
  snd (OnInstance.create Fragment.reference
         (fun w : Z * list (str * str) =>
            {| maxLength := fst w; timeoutMs := 1000; maxBacktrackDepth := 100000;
               onBlock := Some (fun text p w' => (9%Z, (text, p) :: snd w'));
               onWarning := None |})
         (lit "abcdef") None (5%Z, [])) =
    (9%Z, [(lit "Pattern exceeds maximum length of 5", lit "abcdef")]) /\
  error (fst (OnInstance.create Fragment.reference
         (fun w : Z * list (str * str) =>
            {| maxLength := fst w; timeoutMs := 1000; maxBacktrackDepth := 100000;
               onBlock := Some (fun text p w' => (9%Z, (text, p) :: snd w'));
               onWarning := None |})
         (lit "abcdef") None (5%Z, []))) =
    Some (lit "Pattern exceeds maximum length of 9").
Proof.
  destruct (onBlock_receives_the_error_text (Z * list (str * str)) Fragment.reference
              (fun w : Z * list (str * str) =>
                 {| maxLength := fst w; timeoutMs := 1000;
                    maxBacktrackDepth := 100000;
                    onBlock := Some (fun text p w' => (9%Z, (text, p) :: snd w'));
                    onWarning := None |})
              (lit "abcdef") None (5%Z, []) _ eq_refl eq_refl)
    as (text & Hw & _ & Hlen & _).
  - vm_compute. discriminate.
  - destruct (Hlen eq_refl) as (Htext & Herr). subst text. split.
    + rewrite Hw. reflexivity.
    + rewrite Herr. reflexivity.
Defined.





(** ** testWithTimeout *)

(** X8. Whatever [regex.test] does, when [testWithTimeout] returns the
    timer is cancelled, the promise is settled - fulfilled with the
    boolean, or rejected with the very value that [regex.test] threw -
    and [onWarning] has not been called; the timer's elapsing
    afterwards changes nothing. A call therefore never ends in the
    time-out rejection: the match runs to its end inside the
    executor, before the host can run the timer. *)
Theorem testWithTimeout_settles_before_the_timer :
  forall (W : Type) (E : Engine) (config : SafeRegexConfig W)
         (regex : RegExp E) (input : str) (w : W),
  let st := testWithTimeout E config regex input w in
  armed st = None /\
  world st = w /\
  promise st =
    match exec_test E regex input with
    | Returns value => Fulfilled value
    | Throws e => Rejected e
    end /\
  timer_fires E config regex st = st.
Proof.
  intros W E config regex input w st. subst st.
  unfold testWithTimeout, executor.
  destruct (exec_test E regex input); repeat split.
Qed.

(** ** escapeForRegex *)

(** X9. Escaping lengthens a text by one code unit per metacharacter:
    the escaped form is at least as long as the text and at most twice
    as long. *)
Theorem escapeForRegex_length : forall T,
  List.length (escapeForRegex T) =
    List.length T + List.length (filter (chr_in ".*+?^${}()|[]\") T) /\
  List.length T <= List.length (escapeForRegex T) <= 2 * List.length T.
Proof.
  intro T.
  assert (H : List.length (escapeForRegex T) =
              List.length T + List.length (filter (chr_in ".*+?^${}()|[]\") T)).
  { induction T as [|c T IH]; [reflexivity|].
    rewrite escapeForRegex_cons, length_app, IH. simpl filter.
    destruct (chr_in ".*+?^${}()|[]\" c); simpl; lia. }
  split; [exact H|].
  pose proof (filter_length_le (chr_in ".*+?^${}()|[]\") T). lia.
Qed.

(** X10. Escaping loses nothing: two texts with the same escaped form
    are the same text. *)
Theorem escapeForRegex_injective : forall T1 T2,
  escapeForRegex T1 = escapeForRegex T2 -> T1 = T2.
Proof.
  induction T1 as [|c1 T1 IH]; intros T2 H.
  - destruct T2 as [|c2 T2]; [reflexivity|].
    rewrite escapeForRegex_cons in H.
    destruct (chr_in ".*+?^${}()|[]\" c2); discriminate H.
  - destruct T2 as [|c2 T2].
    + rewrite escapeForRegex_cons in H.
      destruct (chr_in ".*+?^${}()|[]\" c1); discriminate H.
    + rewrite !escapeForRegex_cons in H.
      destruct (chr_in ".*+?^${}()|[]\" c1) eqn:H1;
        destruct (chr_in ".*+?^${}()|[]\" c2) eqn:H2; simpl in H.
      * injection H as Hc Hr. subst c2. f_equal. apply IH. assumption.
      * injection H as Hc Hr. subst c2. discriminate H2.
      * injection H as Hc Hr. subst c1. discriminate H1.
      * injection H as Hc Hr. subst c2. f_equal. apply IH. assumption.
Qed.

Lemma escapeForRegex_injective_witness :
  lit "a.b" = lit "a.b".
Proof.
  apply (escapeForRegex_injective (lit "a.b") (lit "a.b")). reflexivity.
Defined.

(** X11. Escaping works code unit by code unit: the escaped form of a
    concatenation is the concatenation of the escaped forms, and a text
    is its own escaped form exactly when it holds no metacharacter. *)
Theorem escapeForRegex_pointwise : forall T1 T2,
  escapeForRegex (T1 ++ T2) = escapeForRegex T1 ++ escapeForRegex T2 /\
  (escapeForRegex T1 = T1 <-> existsb (chr_in ".*+?^${}()|[]\") T1 = false).
Proof.
  intros T1 T2. split.
  - unfold escapeForRegex, escape_class. apply flat_map_app.
  - split.
    + intro H.
      destruct (escapeForRegex_length T1) as [Hlen _]. rewrite H in Hlen.
      assert (Hnil : filter (chr_in ".*+?^${}()|[]\") T1 = []).
      { destruct (filter (chr_in ".*+?^${}()|[]\") T1); [reflexivity|].
        simpl in Hlen. lia. }
      clear -Hnil. induction T1 as [|c T1 IH]; [reflexivity|].
      simpl in *. destruct (chr_in ".*+?^${}()|[]\" c); [discriminate|].
      apply IH. assumption.
    + intro H. induction T1 as [|c T1 IH]; [reflexivity|].
      simpl in H. apply orb_false_iff in H. destruct H as [Hc HT].
      rewrite escapeForRegex_cons, Hc, IH by assumption. reflexivity.
Qed.

Lemma escapeForRegex_pointwise_witness :
  escapeForRegex (lit "readme-v2") = lit "readme-v2".
Proof.
  apply (escapeForRegex_pointwise (lit "readme-v2") []). reflexivity.
Defined.


(** ** globToRegex: the five replacements as one pass *)

Lemma str_pair_ind : forall P : str -> Prop,
  P [] ->
  (forall c rest, P rest -> P (tl rest) -> P (c :: rest)) ->
  forall s, P s.
Proof.
  intros P Hnil Hcons s.
  assert (H : P s /\ P (tl s)).
  { induction s as [|c s [IH1 IH2]]; simpl; auto. }
  exact (proj1 H).
Qed.

Lemma replace_one_char : forall x repl s,
  replace_from [x] repl 0 s =
  flat_map (fun c => if Ascii.eqb x c then repl else [c]) s.
Proof.
  intros x repl s. induction s as [|c s IH]; [reflexivity|].
  simpl. rewrite andb_true_r, IH. destruct (Ascii.eqb x c); reflexivity.
Qed.

Lemma flat_map_flat_map : forall (A B C : Type) (f : B -> list C) (r : A -> list B) l,
  flat_map f (flat_map r l) = flat_map (fun t => flat_map f (r t)) l.
Proof.
  intros A B C f r l. induction l as [|t l IH]; [reflexivity|].
  simpl. rewrite flat_map_app, IH. reflexivity.
Qed.

Lemma glob_tokens_ok : forall g,
  tokens_ok false (glob_tokens g) = true /\
  (match g with c :: _ => Ascii.eqb c "*" = false | [] => True end ->
   tokens_ok true (glob_tokens g) = true).
Proof.
  intro g. induction g as [|c rest IH1 IH2] using str_pair_ind.
  - split; reflexivity.
  - simpl glob_tokens. destruct (Ascii.eqb c "*") eqn:Hs.
    + split; [|discriminate].
      destruct rest as [|d rest']; [reflexivity|].
      destruct (Ascii.eqb d "*") eqn:Hd.
      * cbn [tokens_ok negb andb]. apply (proj1 IH2).
      * cbn [tokens_ok negb andb]. apply (proj2 IH1). reflexivity.
    + destruct (Ascii.eqb c "?") eqn:Hq; cbn [tokens_ok negb andb];
        rewrite ?Hs, ?Hq; cbn [negb andb]; split; intros; apply (proj1 IH1).
Qed.

Lemma tokens_ok_weaken : forall ts b,
  tokens_ok b ts = true -> tokens_ok false ts = true.
Proof.
  intros [|[c| | |] ts] b H; simpl in *; try assumption;
    apply andb_true_iff in H; destruct H as [_ H]; assumption.
Qed.

Ltac eqb_ground :=
  repeat match goal with
         | |- context [Ascii.eqb ?a ?b] =>
             let v := eval vm_compute in (Ascii.eqb a b) in
             lazymatch v with
             | true => change (Ascii.eqb a b) with true
             | false => change (Ascii.eqb a b) with false
             end
         end.

Ltac text_step :=
  cbn [replace_from starts_with app List.length Nat.sub flat_map
       lit list_ascii_of_string token_text token_pattern];
  eqb_ground; cbn [andb orb negb].

(** The second replacement, of two stars by the placeholder. *)
Lemma globstar_pass : forall g,
  replace_all "**" "{{GLOBSTAR}}" (escape_class ".+^${}()|[]\" g) =
  flat_map (token_text "*" "?" "{{GLOBSTAR}}") (glob_tokens g).
Proof.
  unfold replace_all.
  intro g. induction g as [|c rest IH1 IH2] using str_pair_ind; [reflexivity|].
  assert (Hesc : forall x r,
    escape_class ".+^${}()|[]\" (x :: r) =
    (if chr_in ".+^${}()|[]\" x then ["\"%char; x] else [x])
    ++ escape_class ".+^${}()|[]\" r) by reflexivity.
  assert (Hplain : forall x r,
    Ascii.eqb x "*" = false ->
    replace_from (lit "**") (lit "{{GLOBSTAR}}") 0
      ((if chr_in ".+^${}()|[]\" x then ["\"%char; x] else [x]) ++ r) =
    (if chr_in ".+^${}()|[]\" x then ["\"%char; x] else [x])
    ++ replace_from (lit "**") (lit "{{GLOBSTAR}}") 0 r).
  { intros x r Hx. rewrite Ascii.eqb_sym in Hx.
    destruct (chr_in ".+^${}()|[]\" x); text_step; rewrite Hx; reflexivity. }
  cbn [glob_tokens]. destruct (Ascii.eqb c "*") eqn:Hs.
  - apply Ascii.eqb_eq in Hs. subst c.
    destruct rest as [|d rest']; [reflexivity|].
    destruct (Ascii.eqb d "*") eqn:Hd.
    + apply Ascii.eqb_eq in Hd. subst d. cbn [tl] in IH2.
      cbn [flat_map]. rewrite <- IH2. reflexivity.
    + cbn [flat_map]. rewrite <- IH1. rewrite !Hesc.
      change (chr_in ".+^${}()|[]\" "*") with false. cbv iota.
      rewrite Ascii.eqb_sym in Hd.
      destruct (chr_in ".+^${}()|[]\" d); text_step; rewrite ?Hd; reflexivity.
  - rewrite Hesc, Hplain by assumption. rewrite IH1.
    destruct (Ascii.eqb c "?") eqn:Hq.
    + apply Ascii.eqb_eq in Hq. subst c. reflexivity.
    + reflexivity.
Qed.

Lemma star_and_quest_pass : forall ts b,
  tokens_ok b ts = true ->
  replace_all "?" "[^/]"
    (replace_all "*" "[^/]*"
       (flat_map (token_text "*" "?" "{{GLOBSTAR}}") ts)) =
  flat_map (token_text "[^/]*" "[^/]" "{{GLOBSTAR}}") ts.
Proof.
  unfold replace_all.
  change (lit "*") with ["*"%char]. change (lit "?") with ["?"%char].
  intros ts b H. rewrite !replace_one_char, !flat_map_flat_map.
  revert b H. induction ts as [|t ts IH]; intros b H; [reflexivity|].
  cbn [flat_map]. rewrite (IH (match t with G_star => true | _ => false end)).
  - f_equal. destruct t as [c| | |]; try reflexivity.
    cbn [tokens_ok] in H. apply andb_true_iff in H. destruct H as [H _].
    apply andb_true_iff in H. destruct H as [Hs Hq].
    apply negb_true_iff in Hs, Hq. rewrite Ascii.eqb_sym in Hs, Hq.
    unfold token_text.
    destruct (chr_in ".+^${}()|[]\" c); cbn [flat_map app]; eqb_ground;
      cbv iota; rewrite Hs; cbn [flat_map app]; eqb_ground; cbv iota;
      rewrite Hq; reflexivity.
  - destruct t as [c| | |]; cbn [tokens_ok] in H;
      repeat (apply andb_true_iff in H; destruct H as [? H]); assumption.
Qed.

Lemma no_placeholder_tail : forall ts,
  starts_with (lit "{GLOBSTAR}}")
    (flat_map (token_text "[^/]*" "[^/]" "{{GLOBSTAR}}") ts) = false.
Proof.
  intros [|[c| | |] ts]; try reflexivity.
  cbn [flat_map token_text].
  destruct (chr_in ".+^${}()|[]\" c) eqn:Hc; [reflexivity|].
  text_step. destruct (Ascii.eqb "{" c) eqn:Hb; [|reflexivity].
  apply Ascii.eqb_eq in Hb. subst c. discriminate Hc.
Qed.

(** The fifth replacement, of the placeholder. *)
Lemma placeholder_pass : forall ts,
  replace_all "{{GLOBSTAR}}" ".*"
    (flat_map (token_text "[^/]*" "[^/]" "{{GLOBSTAR}}") ts) =
  flat_map token_pattern ts.
Proof.
  unfold replace_all.
  induction ts as [|t ts IH]; [reflexivity|].
  cbn [flat_map]. rewrite <- IH.
  pose proof (no_placeholder_tail ts) as Htail.
  assert (Hone : forall x r,
    starts_with (lit "{GLOBSTAR}}") r = false ->
    replace_from (lit "{{GLOBSTAR}}") (lit ".*") 0 (x :: r) =
    x :: replace_from (lit "{{GLOBSTAR}}") (lit ".*") 0 r).
  { intros x r Hr. cbn [replace_from].
    change (starts_with (lit "{{GLOBSTAR}}") (x :: r))
      with (Ascii.eqb "{" x && starts_with (lit "{GLOBSTAR}}") r).
    rewrite Hr, andb_false_r. reflexivity. }
  assert (Hnot : forall x r,
    Ascii.eqb "{" x = false ->
    replace_from (lit "{{GLOBSTAR}}") (lit ".*") 0 (x :: r) =
    x :: replace_from (lit "{{GLOBSTAR}}") (lit ".*") 0 r).
  { intros x r Hx. cbn [replace_from].
    change (starts_with (lit "{{GLOBSTAR}}") (x :: r))
      with (Ascii.eqb "{" x && starts_with (lit "{GLOBSTAR}}") r).
    rewrite Hx. reflexivity. }
  destruct t as [c| | |].
  - unfold token_pattern, token_text at 1 3.
    destruct (chr_in ".+^${}()|[]\" c); cbn [app].
    + rewrite Hnot by reflexivity. rewrite Hone by assumption. reflexivity.
    + apply Hone. assumption.
  - unfold token_pattern, token_text at 1 3. cbn [lit list_ascii_of_string app].
    rewrite !Hnot by reflexivity. reflexivity.
  - unfold token_pattern, token_text at 1 3. cbn [lit list_ascii_of_string app].
    reflexivity.
  - unfold token_pattern, token_text at 1 3. cbn [lit list_ascii_of_string app].
    rewrite !Hnot by reflexivity. reflexivity.
Qed.

Lemma glob_pattern_tokens : forall g,
  glob_pattern g = lit "^" ++ flat_map token_pattern (glob_tokens g) ++ lit "$".
Proof.
  intro g. unfold glob_pattern. rewrite globstar_pass.
  rewrite (star_and_quest_pass _ false) by apply glob_tokens_ok.
  rewrite placeholder_pass. reflexivity.
Qed.

(** X12. The five replacements of [globToRegex] amount to one
    left-to-right pass over the glob: each token - two stars, one star,
    a question mark, any other code unit - is replaced by its own text,
    and no replacement touches the text an earlier one produced or a
    literal placeholder in the glob. The pattern is at most five times
    as long as the glob, plus the two anchors. *)
Theorem glob_pattern_single_pass : forall g,
  glob_pattern g = lit "^" ++ flat_map token_pattern (glob_tokens g) ++ lit "$" /\
  List.length (glob_pattern g) <= 5 * List.length g + 2.
Proof.
  intro g.
  assert (H : glob_pattern g =
              lit "^" ++ flat_map token_pattern (glob_tokens g) ++ lit "$").
  { apply glob_pattern_tokens. }
  split; [exact H|]. rewrite H. clear H.
  rewrite !length_app. change (List.length (lit "^")) with 1.
  change (List.length (lit "$")) with 1.
  assert (Hlen : List.length (flat_map token_pattern (glob_tokens g))
                 <= 5 * List.length g); [|lia].
  induction g as [|c rest IH1 IH2] using str_pair_ind; [simpl; lia|].
  cbn [glob_tokens]. destruct (Ascii.eqb c "*").
  - destruct rest as [|d rest']; [simpl; lia|].
    destruct (Ascii.eqb d "*"); cbn [flat_map]; rewrite length_app.
    + cbn [tl] in IH2. change (List.length (token_pattern G_globstar)) with 2.
      cbn [List.length] in *. lia.
    + change (List.length (token_pattern G_star)) with 5.
      cbn [List.length] in *. lia.
  - destruct (Ascii.eqb c "?"); cbn [flat_map]; rewrite length_app.
    + change (List.length (token_pattern G_quest)) with 4.
      cbn [List.length] in *. lia.
    + change (token_pattern (G_lit c))
        with (if chr_in ".+^${}()|[]\" c then ["\"%char; c] else [c]).
      destruct (chr_in ".+^${}()|[]\" c); cbn [List.length] in *; lia.
Qed.

(** ** globToRegex: no glob is refused by the analyzer *)

Lemma plain_step : forall c q,
  q = Q_between \/ (exists b, q = Q_class_end b) \/ q = Q_after_star ->
  chr_in ".+^${}()|[]\" c = false ->
  Ascii.eqb c "*" = false -> Ascii.eqb c "?" = false ->
  glob_step q c = Some Q_between.
Proof.
  intros c q Hq. each_ascii c; intros H1 H2 H3;
    first [discriminate H1 | discriminate H2 | discriminate H3
          | destruct Hq as [-> | [[b ->] | ->]]; reflexivity].
Qed.

Lemma glob_run_tokens : forall ts b q,
  tokens_ok b ts = true ->
  (if b then q = Q_after_star
   else q = Q_between \/ exists b', q = Q_class_end b') ->
  glob_run q (flat_map token_pattern ts ++ lit "$") = true.
Proof.
  induction ts as [|t ts IH]; intros b q Hok Hq.
  - destruct b; [subst q; reflexivity|].
    destruct Hq as [-> | [b' ->]]; reflexivity.
  - cbn [flat_map]. rewrite <- app_assoc.
    assert (Hboundary : q = Q_between \/ (exists b', q = Q_class_end b')
                        \/ q = Q_after_star).
    { destruct b; [auto|]. destruct Hq as [-> | [b' ->]]; eauto. }
    destruct t as [c| | |]; cbn [tokens_ok] in Hok.
    + apply andb_true_iff in Hok. destruct Hok as [Hc Hok].
      apply andb_true_iff in Hc. destruct Hc as [Hs Hq'].
      apply negb_true_iff in Hs, Hq'.
      change (token_pattern (G_lit c))
        with (if chr_in ".+^${}()|[]\" c then ["\"%char; c] else [c]).
      destruct (chr_in ".+^${}()|[]\" c) eqn:Hc; cbn [app glob_run].
      * assert (Hesc : glob_step q "\" = Some Q_escape)
          by (destruct Hboundary as [-> | [[b' ->] | ->]]; reflexivity).
        rewrite Hesc. cbn [glob_step].
        apply (IH false); auto.
      * rewrite (plain_step c q) by assumption. apply (IH false); auto.
    + apply andb_true_iff in Hok. destruct Hok as [Hb Hok].
      apply negb_true_iff in Hb. subst b.
      assert (Hrun : forall r, glob_run q (token_pattern G_star ++ r)
                               = glob_run Q_after_star r)
        by (intro r; destruct Hq as [-> | [b' ->]]; reflexivity).
      rewrite Hrun. apply (IH true); auto.
    + apply andb_true_iff in Hok. destruct Hok as [Hb Hok].
      apply negb_true_iff in Hb. subst b.
      assert (Hrun : forall r, glob_run q (token_pattern G_globstar ++ r)
                               = glob_run Q_between r)
        by (intro r; destruct Hq as [-> | [b' ->]]; reflexivity).
      rewrite Hrun. apply (IH false); auto.
    + assert (Hrun : forall r, exists b',
                glob_run q (token_pattern G_quest ++ r)
                = glob_run (Q_class_end b') r).
      { intro r. destruct Hboundary as [-> | [[b' ->] | ->]];
          eexists; reflexivity. }
      destruct (Hrun (flat_map token_pattern ts ++ lit "$")) as [b' ->].
      apply (IH false); eauto.
Qed.

Lemma glob_pattern_runs : forall g, glob_run Q_start (glob_pattern g) = true.
Proof.
  intro g. rewrite glob_pattern_tokens.
  change (glob_run Q_between
            (flat_map token_pattern (glob_tokens g) ++ lit "$") = true).
  apply (glob_run_tokens _ false); [apply glob_tokens_ok | auto].
Qed.

Lemma glob_run_cons : forall q c s,
  glob_run q (c :: s) = true ->
  exists q', glob_step q c = Some q' /\ glob_run q' s = true.
Proof.
  intros q c s H. simpl in H.
  destruct (glob_step q c) as [q'|]; [eauto | discriminate].
Qed.

Lemma glob_run_app : forall pre q s,
  glob_run q (pre ++ s) = true -> exists q', glob_run q' s = true.
Proof.
  induction pre as [|c pre IH]; intros q s H; [eauto|].
  simpl app in H. apply glob_run_cons in H.
  destruct H as (q' & _ & H). apply (IH q'). assumption.
Qed.

(** A closing parenthesis, brace or plus is only read after a backslash,
    and the reading goes on between two tokens. *)
Lemma glob_run_guarded : forall q c s,
  chr_in ")({+" c = true ->
  glob_run q (c :: s) = true ->
  q = Q_escape /\ glob_run Q_between s = true.
Proof.
  intros q c s Hc H. apply chr_in_iff in Hc. simpl in Hc.
  destruct Hc as [<- | [<- | [<- | [<- | []]]]];
    destruct q as [| | | |[]|[]|[]|[]| |]; simpl in H;
    first [discriminate H | split; [reflexivity | assumption]].
Qed.

Lemma glob_run_star : forall q s,
  glob_run q ("*"%char :: s) = true ->
  (q = Q_escape \/ q = Q_dot) /\ glob_run Q_between s = true \/
  q = Q_class_end false /\ glob_run Q_after_star s = true.
Proof.
  intros q s H.
  destruct q as [| | | |[]|[]|[]|[]| |]; simpl in H;
    first [discriminate H | left; split; [auto | assumption]
          | right; split; [reflexivity | assumption]].
Qed.

Lemma glob_run_no_quantified_close : forall q' x s,
  chr_in "+*" x = true -> glob_run q' (")"%char :: x :: s) = true -> False.
Proof.
  intros q' x s Hx H.
  apply glob_run_guarded in H; [|reflexivity]. destruct H as [_ H].
  apply chr_in_iff in Hx. simpl in Hx.
  destruct Hx as [<- | [<- | []]]; discriminate H.
Qed.

Lemma adjacent_classes_full_shape : forall P,
  Re.test (Re.unanchored adjacent_classes_re) P = true ->
  exists pre a q b q2 post,
    P = pre ++ "["%char :: a ++ "]"%char :: q :: "["%char :: b ++ "]"%char :: q2 :: post /\
    chr_in "+*" q = true /\ b <> [] /\
    forallb (chr_not_in "]") b = true /\ chr_in "+*" q2 = true.
Proof.
  intros P H. signature_inv H.
  do 6 eexists. split; [reflexivity | auto].
Qed.

(** On a pattern that reads well, no danger signature matches. *)
Lemma glob_run_no_signature : forall P r,
  glob_run Q_start P = true ->
  In r (map (fun d => Re.body (d_regex d)) DANGEROUS_PATTERNS) ->
  Re.test (Re.unanchored r) P = false.
Proof.
  intros P r Hrun Hr.
  destruct (Re.test (Re.unanchored r) P) eqn:H; [exfalso | reflexivity].
  simpl in Hr. destruct Hr as [<- | [<- | [<- | [<- | [<- | []]]]]].
  - apply nested_quantifier_shape in H.
    destruct H as (pre & a & x & b & q & post & -> & _ & _ & _ & Hq).
    apply glob_run_app in Hrun. destruct Hrun as [q1 Hrun].
    apply glob_run_cons in Hrun. destruct Hrun as (q2 & _ & Hrun).
    apply glob_run_app in Hrun. destruct Hrun as [q3 Hrun].
    apply glob_run_cons in Hrun. destruct Hrun as (q4 & _ & Hrun).
    apply glob_run_app in Hrun. destruct Hrun as [q5 Hrun].
    exact (glob_run_no_quantified_close _ _ _ Hq Hrun).
  - apply alternation_shape in H. destruct H as (pre & a & q & post & -> & Hq).
    apply glob_run_app in Hrun. destruct Hrun as [q1 Hrun].
    apply glob_run_cons in Hrun. destruct Hrun as (q2 & _ & Hrun).
    apply glob_run_app in Hrun. destruct Hrun as [q3 Hrun].
    exact (glob_run_no_quantified_close _ _ _ Hq Hrun).
  - apply repeated_group_shape in H. destruct H as (pre & a & post & ->).
    apply glob_run_app in Hrun. destruct Hrun as [q1 Hrun].
    apply glob_run_cons in Hrun. destruct Hrun as (q2 & _ & Hrun).
    apply glob_run_app in Hrun. destruct Hrun as [q3 Hrun].
    apply glob_run_guarded in Hrun; [|reflexivity]. destruct Hrun as [_ Hrun].
    discriminate Hrun.
  - apply deep_nesting_shape in H. destruct H as (pre & a & x & post & -> & Hx).
    apply glob_run_app in Hrun. destruct Hrun as [q1 Hrun].
    apply glob_run_cons in Hrun. destruct Hrun as (q2 & _ & Hrun).
    apply glob_run_app in Hrun. destruct Hrun as [q3 Hrun].
    apply chr_in_iff in Hx. simpl in Hx. destruct Hx as [<- | [<- | []]].
    + apply glob_run_guarded in Hrun; [|reflexivity]. destruct Hrun as [_ Hrun].
      discriminate Hrun.
    + apply glob_run_star in Hrun.
      destruct Hrun as [[_ Hrun] | [_ Hrun]]; discriminate Hrun.
  - apply adjacent_classes_full_shape in H.
    destruct H as (pre & a & q & b & q2 & post & -> & Hq & Hne & Hb & Hq2).
    apply glob_run_app in Hrun. destruct Hrun as [q1 Hrun].
    apply glob_run_cons in Hrun. destruct Hrun as (q3 & _ & Hrun).
    apply glob_run_app in Hrun. destruct Hrun as [q4 Hrun].
    apply glob_run_cons in Hrun. destruct Hrun as (q5 & Hstep & Hrun).
    assert (Hq5 : q5 = Q_between \/ exists b', q5 = Q_class_end b').
    { destruct q4 as [| | | |[]|[]|[]|[]| |]; simpl in Hstep;
        first [discriminate Hstep | injection Hstep as <-; eauto]. }
    apply chr_in_iff in Hq. simpl in Hq. destruct Hq as [<- | [<- | []]].
    { destruct Hq5 as [-> | [b' ->]]; discriminate Hrun. }
    apply glob_run_star in Hrun.
    destruct Hrun as [[[-> | ->] _] | [_ Hrun]];
      [destruct Hq5 as [? | [? ?]]; discriminate
      | destruct Hq5 as [? | [? ?]]; discriminate |].
    cbn [glob_run glob_step] in Hrun. change (Ascii.eqb "[" "\") with false in Hrun.
    change (Ascii.eqb "[" "[") with true in Hrun. cbv iota in Hrun.
    destruct b as [|b1 b]; [congruence|].
    simpl in Hb. apply andb_true_iff in Hb. destruct Hb as [_ Hb].
    cbn [app glob_run glob_step] in Hrun.
    destruct (Ascii.eqb b1 "^"); [|discriminate Hrun].
    destruct b as [|b2 b]; [discriminate Hrun|].
    simpl in Hb. apply andb_true_iff in Hb. destruct Hb as [_ Hb].
    cbn [app glob_run glob_step] in Hrun.
    destruct (Ascii.eqb b2 "/"); [|discriminate Hrun].
    destruct b as [|b3 b].
    + cbn [app] in Hrun.
      apply glob_run_cons in Hrun. destruct Hrun as (q6 & Hstep6 & Hrun).
      simpl in Hstep6. injection Hstep6 as <-.
      apply chr_in_iff in Hq2. simpl in Hq2.
      destruct Hq2 as [<- | [<- | []]]; discriminate Hrun.
    + simpl in Hb. apply andb_true_iff in Hb. destruct Hb as [Hb3 _].
      cbn [app glob_run glob_step] in Hrun.
      destruct (Ascii.eqb b3 "]") eqn:H3; [|discriminate Hrun].
      apply Ascii.eqb_eq in H3. subst b3. discriminate Hb3.
Qed.

Lemma glob_step_escape : forall q c,
  glob_step q c = Some Q_escape -> c = "\"%char.
Proof.
  intros q c H.
  destruct q as [| | | |b|b|b|b| |]; simpl in H;
    repeat match type of H with
           | (if Ascii.eqb c "\" then _ else _) = _ =>
               destruct (Ascii.eqb c "\") eqn:He;
               [apply Ascii.eqb_eq in He; exact He|]
           | (if ?t then _ else _) = _ => destruct t
           | match ?b with true => _ | false => _ end = _ => destruct b
           end; discriminate H.
Qed.

(** On a pattern that reads well, every parenthesis is escaped: the
    depth counter never leaves the ground. *)
Lemma glob_run_nesting : forall s q prev st,
  glob_run q s = true ->
  (q = Q_escape -> prev = Some "\"%char) ->
  inGroup st = 0%Z ->
  maxDepth (nesting_loop prev s st) = maxDepth st.
Proof.
  induction s as [|c s IH]; intros q prev st Hrun Hq Hg; [reflexivity|].
  apply glob_run_cons in Hrun. destruct Hrun as (q' & Hstep & Hrun).
  assert (Hopen : Ascii.eqb c "(" && not_backslash prev = false).
  { destruct (Ascii.eqb c "(") eqn:Ho; [|reflexivity].
    apply Ascii.eqb_eq in Ho. subst c.
    assert (q = Q_escape)
      by (destruct q as [| | | |[]|[]|[]|[]| |]; simpl in Hstep;
          first [discriminate Hstep | reflexivity]).
    rewrite (Hq H). reflexivity. }
  assert (Hstep' : maxDepth (nesting_step prev c st) = maxDepth st /\
                   inGroup (nesting_step prev c st) = 0%Z).
  { unfold nesting_step. rewrite Hopen, Hg. simpl.
    destruct (Ascii.eqb c ")" && not_backslash prev);
      destruct ((Ascii.eqb c "+" || Ascii.eqb c "*" || Ascii.eqb c "?")
                && not_backslash prev); simpl; auto. }
  destruct Hstep' as [Hm Hi]. simpl.
  rewrite (IH q' (Some c)); try assumption.
  intro He. subst q'. apply glob_step_escape in Hstep. congruence.
Qed.

Lemma glob_pattern_is_safe : forall g,
  analyzePattern (glob_pattern g) =
  {| a_safe := true; a_reason := Some ok; a_message := None |}.
Proof.
  intro g. pose proof (glob_pattern_runs g) as Hrun.
  rewrite analyzePattern_cascade.
  rewrite !(glob_run_no_signature _ _ Hrun) by (simpl; tauto).
  unfold countQuantifierNesting.
  rewrite (glob_run_nesting _ Q_start None) by (assumption || discriminate || reflexivity).
  reflexivity.
Qed.

(** ** globToRegex: the pattern in the fragment, and what it matches *)

Lemma glob_plain_char : forall c,
  chr_in ".+^${}()|[]\" c = false ->
  Ascii.eqb c "$" = false /\ Ascii.eqb c "." = false /\
  Ascii.eqb c "\" = false /\ Ascii.eqb c "[" = false /\
  Fragment.syntax_char c = Ascii.eqb c "*" || Ascii.eqb c "?".
Proof.
  intro c. each_ascii c; vm_compute; intro H;
    first [discriminate H | repeat split].
Qed.

Lemma glob_escaped_char : forall c,
  chr_in ".+^${}()|[]\" c = true -> Fragment.syntax_char c = true.
Proof.
  intro c. each_ascii c; vm_compute; intro H;
    first [discriminate H | reflexivity].
Qed.

Lemma tokens_head_not_star : forall ts b,
  tokens_ok b ts = true ->
  match flat_map token_pattern ts ++ lit "$" with
  | d :: _ => Ascii.eqb d "*" = false
  | [] => True
  end.
Proof.
  intros [|[c| | |] ts] b H; try reflexivity.
  cbn [flat_map]. change (token_pattern (G_lit c))
    with (if chr_in ".+^${}()|[]\" c then ["\"%char; c] else [c]).
  cbn [tokens_ok] in H. apply andb_true_iff in H. destruct H as [H _].
  apply andb_true_iff in H. destruct H as [H _]. apply negb_true_iff in H.
  destruct (chr_in ".+^${}()|[]\" c); [reflexivity | exact H].
Qed.

Lemma parse_pieces_tokens : forall ts b fuel,
  tokens_ok b ts = true ->
  List.length (flat_map token_pattern ts ++ lit "$") <= fuel ->
  Fragment.parse_pieces (S fuel) (flat_map token_pattern ts ++ lit "$") =
  Some (map token_piece ts, true).
Proof.
  induction ts as [|t ts IH]; intros b fuel Hok Hfuel; [reflexivity|].
  assert (Hok' : tokens_ok false ts = true).
  { destruct t; cbn [tokens_ok] in Hok;
      repeat (apply andb_true_iff in Hok; destruct Hok as [? Hok]);
      eapply tokens_ok_weaken; eassumption. }
  pose proof (tokens_head_not_star ts false Hok') as Hhead.
  cbn [flat_map] in *. rewrite <- app_assoc in *.
  set (rest := flat_map token_pattern ts ++ lit "$") in *.
  assert (Hnostar : forall a f,
    List.length rest < f ->
    (let (star, s3) :=
       match rest with
       | d :: s3 => if Ascii.eqb d "*" then (true, s3) else (false, rest)
       | [] => (false, rest)
       end in
     match Fragment.parse_pieces f s3 with
     | Some (ps, eol) =>
         Some ({| Fragment.p_atom := a; Fragment.p_star := star |} :: ps, eol)
     | None => None
     end) =
    Some ({| Fragment.p_atom := a; Fragment.p_star := false |}
          :: map token_piece ts, true)).
  { intros a f Hf. destruct f as [|f]; [lia|].
    destruct rest as [|d s3] eqn:Hrest.
    - cbv beta iota. rewrite (IH false) by (simpl in *; assumption || lia).
      reflexivity.
    - rewrite Hhead. cbv beta iota.
      rewrite (IH false) by (simpl in *; assumption || lia).
      reflexivity. }
  assert (Hstar : forall a f,
    List.length rest < f ->
    match Fragment.parse_pieces f rest with
    | Some (ps, eol) =>
        Some ({| Fragment.p_atom := a; Fragment.p_star := true |} :: ps, eol)
    | None => None
    end =
    Some ({| Fragment.p_atom := a; Fragment.p_star := true |}
          :: map token_piece ts, true)).
  { intros a f Hf. destruct f as [|f]; [lia|].
    rewrite (IH false) by (assumption || lia). reflexivity. }
  rewrite length_app in Hfuel.
  destruct t as [c| | |].
  - change (token_pattern (G_lit c))
      with (if chr_in ".+^${}()|[]\" c then ["\"%char; c] else [c]) in *.
    cbn [tokens_ok] in Hok. apply andb_true_iff in Hok. destruct Hok as [Hc _].
    apply andb_true_iff in Hc. destruct Hc as [Hs Hq].
    apply negb_true_iff in Hs, Hq.
    destruct (chr_in ".+^${}()|[]\" c) eqn:Hc; cbn [app List.length] in *.
    + cbn [Fragment.parse_pieces]. change (Ascii.eqb "\" "$") with false.
      cbv iota. unfold Fragment.parse_atom.
      change (Ascii.eqb "\" ".") with false. change (Ascii.eqb "\" "\") with true.
      cbv iota. rewrite (glob_escaped_char c Hc).
      apply (Hnostar (Fragment.A_char c)). lia.
    + destruct (glob_plain_char c Hc) as (Hd & Hdot & Hb & Hbr & Hsyn).
      cbn [Fragment.parse_pieces]. rewrite Hd. unfold Fragment.parse_atom.
      rewrite Hdot, Hb, Hbr, Hsyn, Hs, Hq. cbn [orb].
      apply (Hnostar (Fragment.A_char c)). lia.
  - change (token_pattern G_star ++ rest)
      with ("["%char :: "^"%char :: "/"%char :: "]"%char :: "*"%char :: rest).
    change (List.length (token_pattern G_star)) with 5 in Hfuel.
    change (Fragment.parse_pieces (S fuel)
              ("["%char :: "^"%char :: "/"%char :: "]"%char :: "*"%char :: rest))
      with (match Fragment.parse_pieces fuel rest with
            | Some (ps, eol) =>
                Some ({| Fragment.p_atom := Fragment.A_class true ["/"%char];
                         Fragment.p_star := true |} :: ps, eol)
            | None => None
            end).
    apply Hstar. lia.
  - change (token_pattern G_globstar ++ rest)
      with ("."%char :: "*"%char :: rest).
    change (List.length (token_pattern G_globstar)) with 2 in Hfuel.
    change (Fragment.parse_pieces (S fuel) ("."%char :: "*"%char :: rest))
      with (match Fragment.parse_pieces fuel rest with
            | Some (ps, eol) =>
                Some ({| Fragment.p_atom := Fragment.A_dot;
                         Fragment.p_star := true |} :: ps, eol)
            | None => None
            end).
    apply Hstar. lia.
  - change (token_pattern G_quest ++ rest)
      with ("["%char :: "^"%char :: "/"%char :: "]"%char :: rest).
    change (List.length (token_pattern G_quest)) with 4 in Hfuel.
    change (Fragment.parse_pieces (S fuel)
              ("["%char :: "^"%char :: "/"%char :: "]"%char :: rest))
      with (let (star, s3) :=
              match rest with
              | d :: s3 => if Ascii.eqb d "*" then (true, s3) else (false, rest)
              | [] => (false, rest)
              end in
            match Fragment.parse_pieces fuel s3 with
            | Some (ps, eol) =>
                Some ({| Fragment.p_atom := Fragment.A_class true ["/"%char];
                         Fragment.p_star := star |} :: ps, eol)
            | None => None
            end).
    apply (Hnostar (Fragment.A_class true ["/"%char])). lia.
Qed.

Lemma parse_glob_pattern : forall g,
  Fragment.parse (glob_pattern g) =
  Some {| Fragment.p_from_start := true;
          Fragment.p_pieces := map token_piece (glob_tokens g);
          Fragment.p_to_end := true |}.
Proof.
  intro g. rewrite glob_pattern_tokens.
  change (lit "^" ++ ?r) with ("^"%char :: r).
  unfold Fragment.parse. change (Ascii.eqb "^" "^") with true. cbv iota beta.
  rewrite (parse_pieces_tokens _ false) by (apply glob_tokens_ok || lia).
  reflexivity.
Qed.

Lemma separator_class : forall x,
  Fragment.atom_accepts true (Fragment.A_class true ["/"%char]) x =
  negb (Ascii.eqb x "/").
Proof. intro x. each_ascii x; reflexivity. Qed.

Lemma forallb_not_separator : forall run,
  forallb (Fragment.atom_accepts true (Fragment.A_class true ["/"%char])) run = true <->
  Forall (fun x => x <> "/"%char) run.
Proof.
  intro run. rewrite forallb_forall, Forall_forall.
  split; intros H x Hx; specialize (H x Hx); rewrite separator_class in *.
  - intros ->. discriminate H.
  - apply negb_true_iff. apply Ascii.eqb_neq. assumption.
Qed.

Lemma forallb_not_terminator : forall run,
  forallb (Fragment.atom_accepts true Fragment.A_dot) run = true <->
  Forall (fun x => Fragment.line_terminator x = false) run.
Proof.
  intro run. rewrite forallb_forall, Forall_forall.
  split; intros H x Hx; specialize (H x Hx); simpl in *.
  - apply negb_true_iff. assumption.
  - apply negb_true_iff. assumption.
Qed.

(** The pieces of a glob's pattern accept the strings its tokens stand
    for. *)
Lemma token_pieces_lang : forall ts s,
  Re.lang (Re.cat_all (map (Fragment.piece_re true) (map token_piece ts))) s <->
  glob_lang ts s.
Proof.
  induction ts as [|t ts IH]; intro s.
  - simpl. split; intro H.
    + apply lang_empty_inv in H. subst. constructor.
    + inversion H. constructor.
  - cbn [map Re.cat_all]. split.
    + intro H. apply lang_cat_inv in H. destruct H as (s1 & s2 & -> & H1 & H2).
      apply IH in H2.
      destruct t as [c| | |]; unfold Fragment.piece_re in H1; simpl in H1.
      * apply lang_class_inv in H1. destruct H1 as (x & -> & Hx).
        apply Ascii.eqb_eq in Hx. constructor; assumption.
      * apply lang_many_class in H1. apply forallb_not_separator in H1.
        constructor; assumption.
      * apply lang_many_class in H1. apply forallb_not_terminator in H1.
        constructor; assumption.
      * apply lang_class_inv in H1. destruct H1 as (x & -> & Hx).
        rewrite separator_class in Hx. apply negb_true_iff in Hx.
        apply Ascii.eqb_neq in Hx. constructor; assumption.
    + intro H. inversion H; subst; unfold Fragment.piece_re; simpl.
      * change (x :: s0) with ([x] ++ s0).
        constructor; [constructor | apply IH; assumption].
        simpl.
        match goal with
        | Hc : Fragment.canonicalize _ = Fragment.canonicalize _ |- _ =>
            rewrite Hc
        end.
        apply Ascii.eqb_refl.
      * change (x :: s0) with ([x] ++ s0).
        constructor; [constructor | apply IH; assumption].
        rewrite separator_class. apply negb_true_iff. apply Ascii.eqb_neq.
        assumption.
      * constructor; [| apply IH; assumption].
        apply lang_many_class. apply forallb_not_separator. assumption.
      * constructor; [| apply IH; assumption].
        apply lang_many_class. apply forallb_not_terminator. assumption.
Qed.

Lemma matches_glob_pattern : forall g s,
  Fragment.matches true
    {| Fragment.p_from_start := true;
       Fragment.p_pieces := map token_piece (glob_tokens g);
       Fragment.p_to_end := true |} s = true <->
  glob_lang (glob_tokens g) s.
Proof.
  intros g s. unfold Fragment.matches, Fragment.to_literal. simpl.
  change (Re.Literal true ?r true) with (Re.anchored r).
  rewrite test_anchored. apply token_pieces_lang.
Qed.

Lemma globToRegex_compiles :
  forall (W : Type) (E : Engine) (config : SafeRegexConfig W) (g : str) (w : W),
  Fragment.conforms E ->
  (Z.of_nat (List.length (glob_pattern g)) <= maxLength config)%Z ->
  exists r,
    globToRegex E config g w = (accepted r, w) /\
    forall s, exists b,
      exec_test E r s = Returns b /\ (b = true <-> glob_lang (glob_tokens g) s).
Proof.
  intros W E config g w Hconf Hlen. unfold globToRegex.
  destruct (create_in_fragment W E config (glob_pattern g) _ w Hconf Hlen
              (or_intror (f_equal a_safe (glob_pattern_is_safe g)))
              (parse_glob_pattern g)) as (r & Hc & Ht).
  exists r. split; [assumption|].
  intro s. eexists. split; [apply Ht|]. apply matches_glob_pattern.
Qed.

(** X13. No glob is refused on the analyzer's verdict: the pattern that
    [globToRegex] builds is always safe for [analyzePattern]. So
    [globToRegex] calls [onBlock] only for a pattern that is too long,
    and its reason is [ok], [pattern_too_long] or [invalid_syntax]. *)
Theorem globs_pass_the_analyzer :
  forall (W : Type) (E : Engine) (config : SafeRegexConfig W) (g : str) (w : W),
  analyzePattern (glob_pattern g) =
    {| a_safe := true; a_reason := Some ok; a_message := None |} /\
  In (reason (fst (globToRegex E config g w)))
     [Some ok; Some pattern_too_long; Some invalid_syntax] /\
  (reason (fst (globToRegex E config g w)) <> Some pattern_too_long ->
   snd (globToRegex E config g w) = w).
Proof.
  intros W E config g w. split; [apply glob_pattern_is_safe|].
  unfold globToRegex.
  destruct (Z.gtb_spec (Z.of_nat (List.length (glob_pattern g))) (maxLength config))
    as [Hlen | Hlen].
  - rewrite length_gate_shut by lia. cbn [fst snd reason].
    split; [simpl; auto | congruence].
  - rewrite length_gate_open by assumption. cbv zeta.
    rewrite glob_pattern_is_safe. cbn [a_safe negb].
    destruct (negb (quickSafetyCheck (glob_pattern g)));
      destruct (compile E (glob_pattern g) (Some (lit "i")));
      cbn [fst snd reason]; (split; [simpl; auto | reflexivity]).
Qed.

Lemma globs_pass_the_analyzer_witness :
  snd (globToRegex Fragment.reference
         {| maxLength := 500; timeoutMs := 1000; maxBacktrackDepth := 100000;
            onBlock := Some (fun _ p log => p :: log); onWarning := None |}
         (lit "(?)*/[a]*[b]*") []) = [].
Proof.
  apply (globs_pass_the_analyzer (list str) Fragment.reference
    {| maxLength := 500; timeoutMs := 1000; maxBacktrackDepth := 100000;
       onBlock := Some (fun _ p log => p :: log); onWarning := None |}
    (lit "(?)*/[a]*[b]*") []).
  vm_compute. discriminate.
Defined.


(** X14. On a host that implements the pattern fragment, every glob
    whose pattern is within [maxLength] compiles to a safe result, and
    the compiled expression matches a string exactly when the whole
    string is what the glob's tokens stand for: each literal code unit
    up to case, one code unit other than the separator for a question
    mark, a run without separator for a star, a run without line
    terminator for two stars. *)
Theorem globToRegex_matches_the_glob :
  forall (W : Type) (E : Engine) (config : SafeRegexConfig W) (g : str) (w : W),
  Fragment.conforms E ->
  (Z.of_nat (List.length (glob_pattern g)) <= maxLength config)%Z ->
  exists r,
    globToRegex E config g w = (accepted r, w) /\
    forall s, exists b,
      exec_test E r s = Returns b /\ (b = true <-> glob_lang (glob_tokens g) s).
Proof. exact globToRegex_compiles. Qed.

Lemma globToRegex_matches_the_glob_witness :
  exists r,
    globToSafeRegex Fragment.reference (lit "src/**/*.t?") tt = (accepted r, tt) /\
    exec_test Fragment.reference r (lit "src/lib/deep/Main.TS") = Returns true /\
    exec_test Fragment.reference r (lit "src/lib/main.tsx") = Returns false.
Proof.
  assert (Hlen : (Z.of_nat (List.length (glob_pattern (lit "src/**/*.t?")))
                  <= maxLength (DEFAULT_CONFIG unit))%Z)
    by (vm_compute; discriminate).
  destruct (globToRegex_matches_the_glob unit Fragment.reference
              (DEFAULT_CONFIG unit) (lit "src/**/*.t?") tt reference_conforms Hlen)
    as (r & Hr & _).
  exists r. split; [exact Hr|].
  vm_compute in Hr. injection Hr as Hr. subst r. split; reflexivity.
Defined.

Lemma glob_tokens_plain : forall g,
  existsb (chr_in "*?") g = false -> glob_tokens g = map G_lit g.
Proof.
  induction g as [|c g IH]; intro H; [reflexivity|].
  simpl in H. apply orb_false_iff in H. destruct H as [Hc Hg].
  unfold chr_in in Hc. simpl in Hc.
  apply orb_false_iff in Hc. destruct Hc as [Hs Hc].
  apply orb_false_iff in Hc. destruct Hc as [Hq _].
  cbn [glob_tokens map]. rewrite Hs, Hq, IH by assumption. reflexivity.
Qed.

Lemma glob_lang_literals : forall g s,
  glob_lang (map G_lit g) s <->
  map Fragment.canonicalize s = map Fragment.canonicalize g.
Proof.
  induction g as [|c g IH]; intro s; simpl; split; intro H.
  - inversion H. reflexivity.
  - destruct s; [constructor | discriminate].
  - inversion H; subst. simpl. f_equal; [assumption | apply IH; assumption].
  - destruct s as [|x s]; [discriminate|]. simpl in H. injection H as Hx Hs.
    constructor; [assumption | apply IH; assumption].
Qed.

(** X15. On a host that implements the pattern fragment, the
    expression that [globToRegex] builds from a glob without star and
    without question mark matches exactly the strings that are the glob
    itself up to case - the whole string, not a part of it, and with
    every metacharacter of the glob taken literally. *)
Theorem wildcard_free_glob_matches_itself :
  forall (W : Type) (E : Engine) (config : SafeRegexConfig W) (g : str) (w : W),
  Fragment.conforms E ->
  (Z.of_nat (List.length (glob_pattern g)) <= maxLength config)%Z ->
  existsb (chr_in "*?") g = false ->
  exists r,
    globToRegex E config g w = (accepted r, w) /\
    forall s, exists b,
      exec_test E r s = Returns b /\
      (b = true <-> map Fragment.canonicalize s = map Fragment.canonicalize g).
Proof.
  intros W E config g w Hconf Hlen Hplain.
  destruct (globToRegex_compiles W E config g w Hconf Hlen) as (r & Hr & Ht).
  exists r. split; [assumption|]. intro s.
  destruct (Ht s) as (b & Hb & Hiff). exists b. split; [assumption|].
  rewrite Hiff, glob_tokens_plain by assumption. apply glob_lang_literals.
Qed.

Lemma wildcard_free_glob_matches_itself_witness :
  exists r,
    globToSafeRegex Fragment.reference (lit "file[1] (a+b).txt") tt = (accepted r, tt) /\
    exec_test Fragment.reference r (lit "FILE[1] (A+B).TXT") = Returns true /\
    exec_test Fragment.reference r (lit "file1 (aab).txt") = Returns false /\
    exec_test Fragment.reference r (lit "x/file[1] (a+b).txt") = Returns false.
Proof.
  assert (Hlen : (Z.of_nat (List.length (glob_pattern (lit "file[1] (a+b).txt")))
                  <= maxLength (DEFAULT_CONFIG unit))%Z)
    by (vm_compute; discriminate).
  destruct (wildcard_free_glob_matches_itself unit Fragment.reference
              (DEFAULT_CONFIG unit) (lit "file[1] (a+b).txt") tt
              reference_conforms Hlen eq_refl) as (r & Hr & _).
  exists r. split; [exact Hr|].
  vm_compute in Hr. injection Hr as Hr. subst r. repeat split.
Defined.

Lemma canonical_separator : forall x,
  Fragment.canonicalize x = "/"%char -> x = "/"%char.
Proof.
  intro x. each_ascii x; vm_compute; intro H;
    first [reflexivity | discriminate H].
Qed.

Lemma no_separator_in_run : forall run,
  Forall (fun x => x <> "/"%char) run -> filter (chr_is "/") run = [].
Proof.
  induction run as [|x run IH]; intro H; [reflexivity|].
  inversion H; subst. cbn [filter]. change (chr_is "/" x) with (Ascii.eqb x "/").
  destruct (Ascii.eqb x "/") eqn:Hx.
  - apply Ascii.eqb_eq in Hx. contradiction.
  - apply IH. assumption.
Qed.

Lemma separators_kept : forall g,
  has_pair (fun x y => Ascii.eqb x "*" && Ascii.eqb y "*") g = false ->
  forall s, glob_lang (glob_tokens g) s ->
  List.length (filter (chr_is "/") s) = List.length (filter (chr_is "/") g).
Proof.
  intro g. induction g as [|c rest IH1 IH2] using str_pair_ind; intros Hpair s H.
  - inversion H. reflexivity.
  - assert (Hrest : has_pair (fun x y => Ascii.eqb x "*" && Ascii.eqb y "*") rest
                    = false).
    { destruct rest as [|d rest']; [reflexivity|].
      change (has_pair _ (c :: d :: rest'))
        with (Ascii.eqb c "*" && Ascii.eqb d "*"
              || has_pair (fun x y => Ascii.eqb x "*" && Ascii.eqb y "*") (d :: rest'))
        in Hpair.
      apply orb_false_iff in Hpair. apply Hpair. }
    cbn [glob_tokens] in H. destruct (Ascii.eqb c "*") eqn:Hs.
    + apply Ascii.eqb_eq in Hs. subst c.
      assert (Hstar : glob_lang (G_star :: glob_tokens rest) s).
      { destruct rest as [|d rest']; [exact H|].
        destruct (Ascii.eqb d "*") eqn:Hd; [|exact H].
        change (has_pair _ ("*"%char :: d :: rest'))
          with (Ascii.eqb "*" "*" && Ascii.eqb d "*"
                || has_pair (fun x y => Ascii.eqb x "*" && Ascii.eqb y "*") (d :: rest'))
          in Hpair.
        rewrite Hd in Hpair. discriminate Hpair. }
      inversion Hstar; subst.
      rewrite filter_app, length_app, no_separator_in_run by assumption.
      cbn [filter List.length Nat.add]. change (chr_is "/" "*") with false.
      cbv iota. apply IH1; assumption.
    + destruct (Ascii.eqb c "?") eqn:Hq.
      * apply Ascii.eqb_eq in Hq. subst c. inversion H; subst.
        cbn [filter]. change (chr_is "/" x) with (Ascii.eqb x "/").
        change (chr_is "/" "?") with false. cbv iota.
        destruct (Ascii.eqb x "/") eqn:Hx;
          [apply Ascii.eqb_eq in Hx; contradiction|].
        apply IH1; assumption.
      * inversion H; subst. cbn [filter].
        change (chr_is "/" x) with (Ascii.eqb x "/").
        change (chr_is "/" c) with (Ascii.eqb c "/").
        assert (Hsame : Ascii.eqb x "/" = Ascii.eqb c "/").
        { destruct (Ascii.eqb x "/") eqn:Hx; destruct (Ascii.eqb c "/") eqn:Hc;
            try reflexivity; exfalso.
          - apply Ascii.eqb_eq in Hx. subst x. apply Ascii.eqb_neq in Hc.
            apply Hc. apply canonical_separator. symmetry. assumption.
          - apply Ascii.eqb_eq in Hc. subst c. apply Ascii.eqb_neq in Hx.
            apply Hx. apply canonical_separator. assumption. }
        rewrite Hsame. destruct (Ascii.eqb c "/"); cbn [List.length];
          [apply f_equal|]; apply IH1; assumption.
Qed.

(** X16. A star and a question mark never cross a path separator: on a
    host that implements the pattern fragment, for a glob in which no
    two stars stand together, every string that the compiled
    expression matches has exactly as many separators as the glob. *)
Theorem single_stars_keep_the_depth :
  forall (W : Type) (E : Engine) (config : SafeRegexConfig W) (g : str) (w : W),
  Fragment.conforms E ->
  (Z.of_nat (List.length (glob_pattern g)) <= maxLength config)%Z ->
  has_pair (fun x y => Ascii.eqb x "*" && Ascii.eqb y "*") g = false ->
  exists r,
    globToRegex E config g w = (accepted r, w) /\
    forall s, exec_test E r s = Returns true ->
      List.length (filter (chr_is "/") s) = List.length (filter (chr_is "/") g).
Proof.
  intros W E config g w Hconf Hlen Hpair.
  destruct (globToRegex_compiles W E config g w Hconf Hlen) as (r & Hr & Ht).
  exists r. split; [assumption|]. intros s Hs.
  destruct (Ht s) as (b & Hb & Hiff). rewrite Hs in Hb. injection Hb as <-.
  apply separators_kept; [assumption | apply Hiff; reflexivity].
Qed.

Lemma single_stars_keep_the_depth_witness :
  exists r,
    globToSafeRegex Fragment.reference (lit "docs/*/?.md") tt = (accepted r, tt) /\
    exec_test Fragment.reference r (lit "docs/api/a.md") = Returns true /\
    exec_test Fragment.reference r (lit "docs/api/v2/a.md") = Returns false.
Proof.
  assert (Hlen : (Z.of_nat (List.length (glob_pattern (lit "docs/*/?.md")))
                  <= maxLength (DEFAULT_CONFIG unit))%Z)
    by (vm_compute; discriminate).
  destruct (single_stars_keep_the_depth unit Fragment.reference
              (DEFAULT_CONFIG unit) (lit "docs/*/?.md") tt
              reference_conforms Hlen eq_refl) as (r & Hr & _).
  exists r. split; [exact Hr|].
  vm_compute in Hr. injection Hr as Hr. subst r. repeat split.
Defined.

(** ** The constructor, configure and getConfig *)

(** X17. Configuring twice is configuring once with the two partial
    objects spread together, the keys of the second winning; this also
    holds from the constructor on. Configuring with an object without
    keys changes nothing, [getConfig] returns the configuration held,
    and an instance built without keys holds the defaults. *)
Theorem configure_composes :
  forall (W : Type) (held : SafeRegexConfig W) (p q : PartialConfig W),
  configure (configure held p) q = configure held (spread_partial p q) /\
  configure (new_SafeRegex p) q = new_SafeRegex (spread_partial p q) /\
  configure held (no_keys W) = held /\
  getConfig held = held /\
  new_SafeRegex (no_keys W) = DEFAULT_CONFIG W.
Proof.
  intros W held p q.
  assert (Hcomp : forall base : SafeRegexConfig W,
            spread (spread base p) q = spread base (spread_partial p q)).
  { intro base. destruct base, p as [p1 p2 p3 p4 p5], q as [q1 q2 q3 q4 q5].
    unfold spread, spread_partial. cbn.
    destruct q1, q2, q3, q4, q5; reflexivity. }
  repeat split.
  - apply Hcomp.
  - apply Hcomp.
  - destruct held. reflexivity.
  - destruct held. reflexivity.
Qed.

(** X18. After [configure] with a [maxLength] key, [create] answers
    [pattern_too_long] exactly for the patterns longer than the new
    value, whatever limit was held before. *)
Theorem configured_maxLength_is_the_limit :
  forall (W : Type) (E : Engine) (held : SafeRegexConfig W) (p : PartialConfig W)
         (n : Z) (P : str) (flags : option str) (w : W),
  set_maxLength p = Some n ->
  (reason (fst (create E (configure held p) P flags w)) = Some pattern_too_long
   <-> (Z.of_nat (List.length P) > n)%Z).
Proof.
  intros W E held p n P flags w Hn.
  assert (Hmax : maxLength (configure held p) = n).
  { unfold configure, spread. cbn. rewrite Hn. reflexivity. }
  split.
  - intro Hr.
    destruct (Z.gtb_spec (Z.of_nat (List.length P)) n) as [Hlen | Hlen]; [lia|].
    exfalso. rewrite length_gate_open in Hr by (rewrite Hmax; assumption).
    cbv zeta in Hr.
    destruct (negb (quickSafetyCheck P)).
    + destruct (a_safe (analyzePattern P)); cbn [negb] in Hr.
      * destruct (compile E P flags); discriminate Hr.
      * exact (analyzer_reason_not_length P Hr).
    + destruct (compile E P flags); discriminate Hr.
  - intro Hlen. rewrite length_gate_shut by (rewrite Hmax; assumption).
    reflexivity.
Qed.

Lemma configured_maxLength_is_the_limit_witness :
  reason (fst (create Fragment.reference
                 (configure (DEFAULT_CONFIG unit)
                    {| set_maxLength := Some 3%Z; set_timeoutMs := None;
                       set_maxBacktrackDepth := None; set_onBlock := None;
                       set_onWarning := None |})
                 (lit "abcd") None tt)) = Some pattern_too_long.
Proof.
  apply (configured_maxLength_is_the_limit unit Fragment.reference
           (DEFAULT_CONFIG unit)
           {| set_maxLength := Some 3%Z; set_timeoutMs := None;
              set_maxBacktrackDepth := None; set_onBlock := None;
              set_onWarning := None |} 3%Z (lit "abcd") None tt eq_refl).
  vm_compute. reflexivity.
Defined.

(** ** How the two conversions and the analyzer compose *)

Lemma glob_class_without_wildcards : forall c,
  chr_in "*?" c = false ->
  chr_in ".+^${}()|[]\" c = chr_in ".*+?^${}()|[]\" c.
Proof.
  intro c. each_ascii c; vm_compute; intro H;
    first [reflexivity | discriminate H].
Qed.

(** X19. For a text without star and without question mark, the pattern
    of [globToRegex] is the escaped text of [escapeForRegex] between
    the two anchors: [globToRegex] on such a text is [create] on the
    anchored escaped text, where [fromUserInput] is [create] on the
    escaped text alone. *)
Theorem glob_anchors_the_escaped_text :
  forall (W : Type) (E : Engine) (config : SafeRegexConfig W) (T : str) (w : W),
  existsb (chr_in "*?") T = false ->
  glob_pattern T = lit "^" ++ escapeForRegex T ++ lit "$" /\
  globToRegex E config T w =
    create E config (lit "^" ++ escapeForRegex T ++ lit "$") (Some (lit "i")) w.
Proof.
  intros W E config T w H.
  assert (Hp : glob_pattern T = lit "^" ++ escapeForRegex T ++ lit "$").
  { rewrite glob_pattern_tokens, glob_tokens_plain by assumption.
    do 2 f_equal. clear -H. induction T as [|c T IH]; [reflexivity|].
    simpl in H. apply orb_false_iff in H. destruct H as [Hc HT].
    cbn [map flat_map]. rewrite IH by assumption.
    rewrite escapeForRegex_cons, <- (glob_class_without_wildcards c Hc).
    reflexivity. }
  split; [exact Hp|]. unfold globToRegex. rewrite Hp. reflexivity.
Qed.

Lemma glob_anchors_the_escaped_text_witness :
  glob_pattern (lit "a.b (1)") = lit "^a\.b \(1\)$".
Proof.
  destruct (glob_anchors_the_escaped_text unit Fragment.reference
              (DEFAULT_CONFIG unit) (lit "a.b (1)") tt eq_refl) as [Hp _].
  rewrite Hp. reflexivity.
Defined.

(** X20. A danger signature cannot be hidden by its surroundings: when
    some signature matches a pattern, the analyzer refuses every
    pattern that contains it, whatever stands before and after. *)
Theorem dangerous_in_any_context : forall P pre post,
  existsb (fun d => Re.test (d_regex d) P) DANGEROUS_PATTERNS = true ->
  a_safe (analyzePattern (pre ++ P ++ post)) = false.
Proof.
  intros P pre post H.
  assert (Hgrow : forall r,
    Re.test (Re.unanchored r) P = true ->
    Re.test (Re.unanchored r) (pre ++ P ++ post) = true).
  { intros r Hr. apply test_unanchored in Hr.
    destruct Hr as (a & m & b & -> & Hm). apply test_unanchored.
    exists (pre ++ a), m, (b ++ post). split; [|assumption].
    repeat rewrite <- app_assoc. reflexivity. }
  rewrite analyzePattern_cascade.
  cbn [existsb DANGEROUS_PATTERNS d_regex] in H.
  repeat (apply orb_true_iff in H; destruct H as [H | H];
          [apply Hgrow in H; rewrite H;
           repeat match goal with
                  | |- context [if ?b then _ else _] => destruct b
                  end; reflexivity |]).
  discriminate H.
Qed.

Lemma dangerous_in_any_context_witness :
  a_safe (analyzePattern (lit "^id=" ++ lit "(\d+)*" ++ lit ";$")) = false.
Proof.
  apply (dangerous_in_any_context (lit "(\d+)*") (lit "^id=") (lit ";$")).
  reflexivity.
Defined.
